(** * Reference counting of volume usage (vmdk_plugin/utils/refcount/refcnt.go)

    A shallow embedding of the refcount store ([RefCountsMap]), of the scan
    of the mount table ([getMountInfo]) and of the reconciliation of mounts
    with reference counts ([syncMountsWithRefCounters]), with the
    properties of these operations.

    Conventions of the embedding:
    - [map[string]*refCount] is a [gmap string refCount].  Every key owns
      its own record (records are only made by [newRefCount], one per key)
      and no nil pointer is ever stored, so writing through the pointer
      [rc] obtained from [r.refMap[vol]] is an update of the map at [vol],
      and [rc == nil] is [r !! vol = None].
    - [uint] is an unsigned integer of 64 bits (its size on the 64 bit
      platforms the plugin is built for): a [Z] in [0, 2^64), with the
      wrap-around of [++] and [--] written out ([uint_wrap]).
    - the mutex only serialises the operations: every operation is one
      atomic step on the store.
    - logging is kept as a list of records (level and message text). *)

From Stdlib Require Import ZArith Lia Ascii String.
From stdpp Require Import base option list strings gmap fin_maps.

Local Open Scope string_scope.
Local Open Scope list_scope.
Local Open Scope Z_scope.

(** ** Unsigned machine integers *)

Definition uint_size : Z := 64.
Definition uint_modulus : Z := 2 ^ uint_size.

(** The value kept by a [uint] variable which is assigned the integer [z]. *)
Definition uint_wrap (z : Z) : Z := z mod uint_modulus.

(** [z] is a value of type [uint]. *)
Definition is_uint (z : Z) : Prop := 0 <= z < uint_modulus.

(** ** Logging *)

Inductive level := LDebug | LInfo | LWarning | LError | LPanic.

Record logrec := Log { lvl : level; msg : string }.

Global Instance level_eq_dec : EqDecision level.
Proof. solve_decision. Defined.

Global Instance logrec_eq_dec : EqDecision logrec.
Proof. solve_decision. Defined.

(** ** The data model *)

(** info about individual volume ref counts and mount *)
Record refCount := RefCount {
  count : Z;        (* refcount for the given volume (a uint) *)
  mounted : bool;   (* is the volume mounted from the OS point of view *)
  dev : string      (* the volume is mounted from this device *)
}.

Global Instance refCount_eq_dec : EqDecision refCount.
Proof. solve_decision. Defined.

Definition set_count (c : Z) (rc : refCount) : refCount :=
  {| count := c; mounted := mounted rc; dev := dev rc |}.

Definition set_mounted (b : bool) (rc : refCount) : refCount :=
  {| count := count rc; mounted := b; dev := dev rc |}.

Definition set_dev (d : string) (rc : refCount) : refCount :=
  {| count := count rc; mounted := mounted rc; dev := d |}.

(** The map of refCounts of a [RefCountsMap]. *)
Abbreviation RefCountsMap := (gmap string refCount).

(** [NewRefCountsMap]: an empty map. *)
Definition NewRefCountsMap : RefCountsMap := ∅.

(** [newRefCount]: [&refCount{count: 0}], the other fields have their zero
    values. *)
Definition newRefCount : refCount :=
  {| count := 0; mounted := false; dev := "" |}.

(** Go's [error] values made by [fmt.Errorf]: the message. *)
Definition error := string.

(** ** The refcount API *)

(** [GetCount]: ref count for the volume; 0 when the volume is not in the
    map. *)
Definition GetCount (r : RefCountsMap) (vol : string) : Z :=
  match r !! vol with
  | None => 0
  | Some rc => count rc
  end.

(** [Incr]: increments the refCount of [vol], creating the entry if needed.
    Returns the new count and the new map. *)
Definition Incr (r : RefCountsMap) (vol : string) : Z * RefCountsMap :=
  let '(rc, r1) :=
    match r !! vol with
    | None => (newRefCount, <[vol := newRefCount]> r)
    | Some rc => (rc, r)
    end in
  let rc' := set_count (uint_wrap (count rc + 1)) rc in
  (count rc', <[vol := rc']> r1).

Definition msg_decr_already_zero : string :=
  "Decr: refcnt already 0 (rc.count=0), name=%s".
Definition msg_decr_negative : string :=
  "Decr: Internal error, refcnt is negative. Trying to recover, deleting the counter - name=%s refcnt=%d".

Definition err_missing_refcount (vol : string) : error :=
  "Decr: Missing refcount. name=" +:+ vol.

(** What a call of [Decr] gives: the two returned values, the map after the
    call and what the call logged. *)
Record DecrResult := MkDecr {
  decr_count : Z;
  decr_err : option error;
  decr_map : RefCountsMap;
  decr_log : list logrec
}.

(** [Decr]: decrements the refCount of [vol] and returns the new count;
    deletes the entry when the count drops to 0. *)
Definition Decr (r : RefCountsMap) (vol : string) : DecrResult :=
  match r !! vol with
  | None => MkDecr 0 (Some (err_missing_refcount vol)) r []
  | Some rc =>
      if count rc =? 0 then
        MkDecr 0 None (delete vol r) [Log LWarning msg_decr_already_zero]
      else
        let rc1 := set_count (uint_wrap (count rc - 1)) rc in
        let r1 := <[vol := rc1]> r in
        let l := if count rc1 <? 0
                 then [Log LWarning msg_decr_negative] else [] in
        let r2 := if count rc1 <=? 0 then delete vol r1 else r1 in
        MkDecr (count rc1) None r2 l
  end.

(** ** Library functions used by the scan of the mount table

    [strings.Fields], [filepath.Dir] and [filepath.Base] belong to Go's
    standard library; the scan is stated over any functions of their
    types. *)
Class PathLib := {
  strings_Fields : string → list string;
  filepath_Dir : string → string;
  filepath_Base : string → string
}.

(** [strings.Split(s, sep)] for a separator of one character: the pieces
    of [s] between the occurrences of [sep] (one more piece than there are
    occurrences). *)
Fixpoint strings_Split (s : string) (sep : ascii) : list string :=
  match s with
  | EmptyString => [EmptyString]
  | String c rest =>
      if Ascii.eqb c sep then EmptyString :: strings_Split rest sep
      else match strings_Split rest sep with
           | [] => [String c EmptyString]
           | piece :: pieces => String c piece :: pieces
           end
  end.

Definition newline : ascii := Ascii.ascii_of_nat 10.

(** ** The scan of the mount table *)

Definition msg_cant_get_info : string := "Can't get info from %s (%v)".
Definition msg_found_in_mounts : string :=
  "Found '%s' in /proc/mount, ref=(%#v)".

Section MountInfo.
Context `{PathLib}.

(** The body of the loop of [getMountInfo] on one line of the file, with
    [mountRoot] the root dir for mounted volumes. *)
Definition scan_line (mountRoot : string) (st : RefCountsMap * list logrec)
    (line : string) : RefCountsMap * list logrec :=
  let '(r, logs) := st in
  let field := strings_Fields line in
  match field with
  | field0 :: field1 :: _ =>
      if bool_decide (filepath_Dir field1 ≠ mountRoot) then (r, logs)
      else
        let volName := filepath_Base field1 in
        let refInfo :=
          match r !! volName with
          | None => newRefCount
          | Some rc => rc
          end in
        let refInfo := set_mounted true refInfo in
        let refInfo := set_dev field0 refInfo in
        (<[volName := refInfo]> r,
         logs ++ [Log LDebug msg_found_in_mounts])
  | _ => (r, logs) (* len(field) < 2: skipped *)
  end.

(** [getMountInfo]: scans the mounts file and updates the map with the
    mounted volumes. [file] is what [ioutil.ReadFile] returned. *)
Definition getMountInfo (mountRoot : string) (file : string + error)
    (r : RefCountsMap) : RefCountsMap * list logrec * option error :=
  match file with
  | inr err => (r, [Log LError msg_cant_get_info], Some err)
  | inl data =>
      (foldl (scan_line mountRoot) (r, []) (strings_Split data newline),
       None)
  end.
End MountInfo.

(** ** The volume driver *)

(** The dynamic values ([interface{}]) found in the status of a volume. *)
Inductive value :=
  | VString (s : string)
  | VInt (n : Z)
  | VBool (b : bool)
  | VNil.

Global Instance value_eq_dec : EqDecision value.
Proof. solve_decision. Defined.

(** The type assertion [v.(string)] on the result of a map lookup, in its
    form with two results: the string when the key is there with a string,
    nothing otherwise. *)
Definition as_string (v : option value) : option string :=
  match v with
  | Some (VString s) => Some s
  | _ => None
  end.

(** The methods of the interface [drivers.VolumeDriver] (declared in the
    package [vmdk_plugin/drivers]) which the reconciliation calls, with the
    arguments and results of their calls. A driver has a state of its own,
    of type [S], which its methods may change. *)
Class VolumeDriver (S : Type) := {
  MountVolume : string → string → string → bool → bool → S →
                (string * option error) * S;
  UnmountVolume : string → S → option error * S;
  GetVolume : string → S → (gmap string value * option error) * S
}.

(** What the reconciliation emits: calls of the driver and log records. *)
Inductive call :=
  | CallMountVolume (name fstype id : string) (isReadOnly skipAttach : bool)
  | CallUnmountVolume (name : string)
  | CallGetVolume (name : string).

Inductive event :=
  | ECall (c : call)
  | ELog (l : logrec).

Global Instance call_eq_dec : EqDecision call.
Proof. solve_decision. Defined.

Global Instance event_eq_dec : EqDecision event.
Proof. solve_decision. Defined.

(** The volume a call is about. *)
Definition call_volume (c : call) : string :=
  match c with
  | CallMountVolume name _ _ _ _ => name
  | CallUnmountVolume name => name
  | CallGetVolume name => name
  end.

(** Why a computation stopped with a panic: [log.Panic] on a record that
    should not exist, or a failed type assertion. *)
Inductive cause := RecordShouldNotExist | InterfaceConversion.

Global Instance cause_eq_dec : EqDecision cause.
Proof. solve_decision. Defined.

Inductive result (A : Type) :=
  | Ret (a : A)
  | Panicked (c : cause).
Arguments Ret {A} a.
Arguments Panicked {A} c.

(** Computations which call the driver, log and may panic: from the state
    of the driver to the events emitted, the result and the new state. *)
Definition M (S A : Type) : Type := S → list event * result A * S.

Definition M_ret {S A} (a : A) : M S A := λ s, ([], Ret a, s).

Definition M_bind {S A B} (k : A → M S B) (m : M S A) : M S B :=
  λ s,
    match m s with
    | (e1, Ret a, s1) =>
        match k a s1 with
        | (e2, r, s2) => (e1 ++ e2, r, s2)
        end
    | (e1, Panicked c, s1) => (e1, Panicked c, s1)
    end.

Global Instance M_mret {S} : MRet (M S) := @M_ret S.
Global Instance M_mbind {S} : MBind (M S) := @M_bind S.

Definition logf {S} (l : level) (m : string) : M S unit :=
  λ s, ([ELog (Log l m)], Ret (), s).

Definition panic {S A} (c : cause) : M S A :=
  λ s, ([], Panicked c, s).

(** [log.Panic]: logs at the panic level, then panics. *)
Definition log_Panic {S A} (m : string) : M S A :=
  logf LPanic m ;; panic RecordShouldNotExist.

Definition events_of {S A} (x : list event * result A * S) : list event :=
  x.1.1.
Definition result_of {S A} (x : list event * result A * S) : result A :=
  x.1.2.
Definition state_of {S A} (x : list event * result A * S) : S := x.2.

Definition calls_of (es : list event) : list call :=
  omap (λ e, match e with ECall c => Some c | ELog _ => None end) es.

(** The calls of the driver about the volume [vol] among the events. *)
Definition calls_on (vol : string) (es : list event) : list call :=
  filter (λ c, call_volume c = vol) (calls_of es).

(** A computation followed by another one, on what the first one gave. *)
Definition and_then {S A B} (x : list event * result A * S)
    (k : A → M S B) : list event * result B * S :=
  match result_of x with
  | Ret a =>
      (events_of x ++ events_of (k a (state_of x)),
       result_of (k a (state_of x)), state_of (k a (state_of x)))
  | Panicked c => (events_of x, Panicked c, state_of x)
  end.

(** ** The reconciliation of mounts with refcounts *)

Definition photonDriver : string := "photon".

Definition msg_refcnt_record : string := "Refcnt record: ".
Definition msg_recovery_unmount : string := "Initiating recovery unmount. ".
Definition msg_failed_unmount : string :=
  "Failed to unmount - manual recovery may be needed".
Definition msg_should_not_exist : string :=
  "Internal failure: record should not exist. ".
Definition msg_recovery_mount : string := "Initiating recovery mount. ".
Definition msg_failed_mount : string :=
  "Failed to mount - manual recovery may be needed".
Definition msg_failed_disk_id : string :=
  "Failed to disk ID for photon disk cannot mount in use disk".

(** The disk ID passed to [MountVolume]: the ID of the status for the photon
    driver when the status has one, the empty string otherwise. *)
Definition disk_id (driverName : string) (status : gmap string value)
    : string :=
  if String.eqb driverName photonDriver
  then default "" (as_string (status !! "ID"))
  else "".

(** What is logged about the disk ID before the mount. *)
Definition disk_id_events (driverName : string) (status : gmap string value)
    : list event :=
  if String.eqb driverName photonDriver then
    match as_string (status !! "ID") with
    | Some _ => []
    | None => [ELog (Log LWarning msg_failed_disk_id)]
    end
  else [].

(** The access reported by the status is "read-only". *)
Definition read_only (status : gmap string value) : bool :=
  bool_decide (status !! "access" = Some (VString "read-only")).

Section Sync.
Context {S : Type} `{VolumeDriver S}.

Definition do_UnmountVolume (name : string) : M S (option error) :=
  λ s, let '(err, s1) := UnmountVolume name s in
       ([ECall (CallUnmountVolume name)], Ret err, s1).

Definition do_GetVolume (name : string)
    : M S (gmap string value * option error) :=
  λ s, let '(res, s1) := GetVolume name s in
       ([ECall (CallGetVolume name)], Ret res, s1).

Definition do_MountVolume (name fstype id : string)
    (isReadOnly skipAttach : bool) : M S (string * option error) :=
  λ s, let '(res, s1) := MountVolume name fstype id isReadOnly skipAttach s in
       ([ECall (CallMountVolume name fstype id isReadOnly skipAttach)],
        Ret res, s1).

(** The recovery mount of [vol], once [GetVolume] has given [status]. *)
Definition recovery_mount (driverName : string) (vol : string)
    (status : gmap string value) : M S unit :=
  id ← (if String.eqb driverName photonDriver then
          match as_string (status !! "ID") with
          | Some id => mret id
          | None => logf LWarning msg_failed_disk_id ;; mret ""
          end
        else mret "") ;
  let isReadOnly :=
    match status !! "access" with
    | Some access => bool_decide (access = VString "read-only")
    | None => false
    end in
  (* status["fstype"].(string), the form with one result: panics when
     the key is not there or does not hold a string *)
  fstype ← match as_string (status !! "fstype") with
           | Some fstype => mret fstype
           | None => panic InterfaceConversion
           end ;
  res ← do_MountVolume vol fstype id isReadOnly false ;
  match res.2 with
  | Some _ => logf LWarning msg_failed_mount
  | None => mret ()
  end.

(** The body of the loop of [syncMountsWithRefCounters] on the entry of
    [vol], with [driverName] the name the plugin was started with. *)
Definition sync_record (driverName : string) (vol : string)
    (cnt : refCount) : M S unit :=
  logf LDebug msg_refcnt_record ;;
  if mounted cnt then
    if count cnt =? 0 then
      (* Volume mounted but not used *)
      logf LInfo msg_recovery_unmount ;;
      err ← do_UnmountVolume vol ;
      match err with
      | Some _ => logf LWarning msg_failed_unmount
      | None => mret ()
      end
    else mret ()
  else
    if count cnt =? 0 then
      (* volume unmounted AND refcount 0 *)
      log_Panic msg_should_not_exist
    else
      (* No mounts, but Docker tells we have refcounts *)
      logf LWarning msg_recovery_mount ;;
      res ← do_GetVolume vol ;
      match res.2 with
      | Some _ => logf LWarning msg_failed_mount
      | None => recovery_mount driverName vol res.1
      end.

(** [for vol, cnt := range ...] over the entries in the order [entries]. *)
Fixpoint range_loop (body : string → refCount → M S unit)
    (entries : list (string * refCount)) : M S unit :=
  match entries with
  | [] => mret ()
  | (vol, cnt) :: rest => body vol cnt ;; range_loop body rest
  end.

(** [syncMountsWithRefCounters]: the loop over the entries of the map, in
    the order [entries] in which the [range] statement yields them. *)
Definition syncMountsWithRefCounters (driverName : string)
    (entries : list (string * refCount)) : M S unit :=
  range_loop (sync_record driverName) entries.
End Sync.

(** The orders in which [range r.refMap] may yield the entries of the map:
    every entry once, in any order. *)
Definition range_order (r : RefCountsMap) (entries : list (string * refCount))
    : Prop :=
  entries ≡ₚ map_to_list r.

(** ** Sequences of calls of the refcount API *)

Inductive op :=
  | OpIncr (vol : string)
  | OpDecr (vol : string).

Global Instance op_eq_dec : EqDecision op.
Proof. solve_decision. Defined.

Definition run_op (r : RefCountsMap) (o : op) : RefCountsMap :=
  match o with
  | OpIncr vol => (Incr r vol).2
  | OpDecr vol => decr_map (Decr r vol)
  end.

Definition run_ops (ops : list op) (r : RefCountsMap) : RefCountsMap :=
  foldl run_op r ops.

(** The number of calls of [Incr] and of [Decr] on [vol] in [ops]. *)
Definition n_incr (vol : string) (ops : list op) : Z :=
  Z.of_nat (length (filter (λ o, o = OpIncr vol) ops)).
Definition n_decr (vol : string) (ops : list op) : Z :=
  Z.of_nat (length (filter (λ o, o = OpDecr vol) ops)).

(** Every [Decr] on [vol] in [ops] comes after an [Incr] on [vol] of its
    own: [pending] counts the increments not yet matched. *)
Fixpoint matched_from (pending : Z) (vol : string) (ops : list op) : bool :=
  match ops with
  | [] => true
  | OpIncr v :: rest =>
      matched_from (if decide (v = vol) then pending + 1 else pending)
                   vol rest
  | OpDecr v :: rest =>
      if decide (v = vol)
      then (0 <? pending) && matched_from (pending - 1) vol rest
      else matched_from pending vol rest
  end.

Definition matched (vol : string) (ops : list op) : bool :=
  matched_from 0 vol ops.

(** The sequence of [2^64] calls of [Incr] on one volume. *)
Abbreviation wrapping_ops :=
  (replicate (Z.to_nat uint_modulus) (OpIncr "vol1")).

(** ** Instances used in the examples *)

(** White space of the ASCII range (tab, line feed, vertical tab, form feed,
    carriage return, space). *)
Definition is_space (c : ascii) : bool :=
  let n := nat_of_ascii c in
  ((9 <=? n)%nat && (n <=? 13)%nat) || (n =? 32)%nat.

(** The fields of a line of ASCII text: the maximal runs of characters
    which are not white space. [tok] is the field being read. *)
Fixpoint fields_from (tok : string) (s : string) : list string :=
  match s with
  | EmptyString =>
      match tok with
      | EmptyString => []
      | _ => [tok]
      end
  | String c rest =>
      if is_space c then
        match tok with
        | EmptyString => fields_from "" rest
        | _ => tok :: fields_from "" rest
        end
      else fields_from (tok +:+ String c "") rest
  end.

(** A path cut at its last separator, when it has one. *)
Fixpoint split_last_slash (p : string) : option (string * string) :=
  match p with
  | EmptyString => None
  | String c rest =>
      match split_last_slash rest with
      | Some (d, b) => Some (String c d, b)
      | None => if Ascii.eqb c "/" then Some ("", rest) else None
      end
  end.

(** The directory and the last element of a path which is already clean
    (no empty, [.] or [..] element, no separator at the end), as the mount
    points of the mounts file are. *)
Definition clean_dir (p : string) : string :=
  match split_last_slash p with
  | None => "."
  | Some (EmptyString, _) => "/"
  | Some (d, _) => d
  end.

Definition clean_base (p : string) : string :=
  match split_last_slash p with
  | None => match p with EmptyString => "." | _ => p end
  | Some (_, EmptyString) => "/"
  | Some (_, b) => b
  end.

Definition ascii_paths : PathLib :=
  {| strings_Fields := fields_from "";
     filepath_Dir := clean_dir;
     filepath_Base := clean_base |}.

(** A driver without state which answers from tables: the status and error
    of [GetVolume], and the errors of [UnmountVolume] and [MountVolume]. *)
Definition table_driver
    (status : string → gmap string value * option error)
    (unmount_err mount_err : string → option error) : VolumeDriver unit :=
  {| MountVolume := λ name _ _ _ _ s, (("/mnt/vmdk/" +:+ name, mount_err name), s);
     UnmountVolume := λ name s, (unmount_err name, s);
     GetVolume := λ name s, (status name, s) |}.

(** The status of a volume formatted as ext4 with the given access. *)
Definition ext4_status (access : string) : gmap string value :=
  <["fstype" := VString "ext4"]> (<["access" := VString access]> ∅).

(** A driver on which every call succeeds, with read-write ext4 volumes. *)
Definition good_driver : VolumeDriver unit :=
  table_driver (λ _, (ext4_status "read-write", None))
               (λ _, None) (λ _, None).

(** A driver whose status of a volume has no [fstype]. *)
Definition no_fstype_driver : VolumeDriver unit :=
  table_driver (λ _, (<["access" := VString "read-write"]> ∅, None))
               (λ _, None) (λ _, None).

(** A driver on which every call fails. *)
Definition failing_driver : VolumeDriver unit :=
  table_driver (λ _, (∅, Some "no such volume"))
               (λ _, Some "unmount failed") (λ _, Some "mount failed").

(** ** Invariants of the map *)

(** Every count of the map is a value of type [uint]. *)
Definition uint_counts (r : RefCountsMap) : Prop :=
  map_Forall (λ _ rc, is_uint (count rc)) r.

(** No record of the map is both unmounted and without references: the
    records which "should not exist" for [syncMountsWithRefCounters]. *)
Definition no_idle_record (r : RefCountsMap) : Prop :=
  map_Forall (λ _ rc, ¬ (mounted rc = false ∧ count rc = 0)) r.

(** ** The scan of the lines of the mounts file *)

(** The volume and the device a line of the mounts file is about under
    [mountRoot], when the scan does not skip the line. *)
Definition line_mount `{PathLib} (mountRoot line : string)
    : option (string * string) :=
  match strings_Fields line with
  | field0 :: field1 :: _ =>
      if bool_decide (filepath_Dir field1 ≠ mountRoot) then None
      else Some (filepath_Base field1, field0)
  | _ => None
  end.

(** What a scan may do to a map [r], giving [r']: a record of [r] is still
    there with its count, and mounted if it was; a record which is new has
    the count 0 and is mounted. *)
Definition scan_extends (r r' : RefCountsMap) : Prop :=
  ∀ vol,
    match r !! vol with
    | Some rc =>
        ∃ rc', r' !! vol = Some rc' ∧ count rc' = count rc
               ∧ (mounted rc = true → mounted rc' = true)
    | None => ∀ rc', r' !! vol = Some rc' → count rc' = 0 ∧ mounted rc' = true
    end.

(** The step of the scan, on the map alone. *)
Definition scan_step `{PathLib} (mountRoot : string) (m : RefCountsMap)
    (line : string) : RefCountsMap :=
  match strings_Fields line with
  | field0 :: field1 :: _ =>
      if decide (filepath_Dir field1 = mountRoot) then
        <[filepath_Base field1 :=
            {| count := GetCount m (filepath_Base field1);
               mounted := true; dev := field0 |}]> m
      else m
  | _ => m
  end.

(** [strings.Join] for a separator of one character. *)
Fixpoint strings_Join (pieces : list string) (sep : ascii) : string :=
  match pieces with
  | [] => EmptyString
  | [piece] => piece
  | piece :: rest => piece +:+ String sep (strings_Join rest sep)
  end.

(** The character [c] occurs in [s]. *)
Fixpoint has_char (c : ascii) (s : string) : bool :=
  match s with
  | EmptyString => false
  | String c' rest => Ascii.eqb c' c || has_char c rest
  end.

(** ** Discovery of the refcounts from Docker *)

(** What the discovery reads of [types.Container] and [types.MountPoint]. *)
Record Container := MkContainer { ID : string; Names : list string }.

Record MountPoint := MkMountPoint {
  Name : string;
  Source : string;
  Driver : string
}.

(** The methods of the client of the Docker engine ([client.Client] of
    [github.com/docker/engine-api]) which the discovery calls; [C] is the
    state of the engine behind the client. [ContainerList] takes the values
    of the [status] filter; [ClientInfo] is the method [Info], of which only
    the error is used. *)
Class DockerClient (C : Type) := {
  ContainerList : list string → C → (list Container * option error) * C;
  ContainerInspect : string → C → (list MountPoint * option error) * C;
  ClientInfo : C → option error * C
}.

(** What [Init] and [discoverAndSync] work on: the map of refcounts, the
    Docker engine and the volume driver. *)
Record World (C S : Type) := MkWorld {
  refMap : RefCountsMap;
  docker : C;
  driver : S
}.
Arguments MkWorld {C S} refMap docker driver.
Arguments refMap {C S} w.
Arguments docker {C S} w.
Arguments driver {C S} w.

Definition set_refMap {C S} (r : RefCountsMap) (w : World C S) : World C S :=
  MkWorld r (docker w) (driver w).
Definition set_docker {C S} (c : C) (w : World C S) : World C S :=
  MkWorld (refMap w) c (driver w).
Definition set_driver {C S} (s : S) (w : World C S) : World C S :=
  MkWorld (refMap w) (docker w) s.

(** The volume driver, as a part of the world. *)
Definition world_driver {C S} `{VolumeDriver S}
    : VolumeDriver (World C S) :=
  {| MountVolume := λ name fstype id isReadOnly skipAttach w,
       ((MountVolume name fstype id isReadOnly skipAttach (driver w)).1,
        set_driver
          (MountVolume name fstype id isReadOnly skipAttach (driver w)).2 w);
     UnmountVolume := λ name w,
       ((UnmountVolume name (driver w)).1,
        set_driver (UnmountVolume name (driver w)).2 w);
     GetVolume := λ name w,
       ((GetVolume name (driver w)).1,
        set_driver (GetVolume name (driver w)).2 w) |}.

Definition msg_found_containers : string :=
  "Found %d running or paused containers".
Definition msg_inspect_failed : string :=
  "ContainerInspect failed for %s (err: %v)".
Definition msg_mounts_for : string := "  Mounts for %v".
Definition msg_mount_counted : string :=
  "  name=%v (driver=%s source=%s) (%v)".
Definition msg_skip_discovery : string :=
  "RefCountsMap.Init: Skipping Docker volumes discovery - VDVS_DISCOVER_VOLUMES not set".
Definition msg_client_failed : string :=
  "Failed to create client for Docker at %s.( %v)".
Definition msg_getting_data : string := "Getting volume data from %s".
Definition msg_cant_connect : string :=
  "Can't connect to %s, skipping discovery".
Definition msg_docker_info : string :=
  "Docker info: version=%s, root=%s, OS=%s".
Definition msg_discover_failed : string :=
  "Failed to discover mount refcounts(%v)".
Definition msg_discovered : string := "Discovered %d volumes in use.".
Definition msg_volume : string :=
  "Volume name=%s count=%d mounted=%t device='%s'".

(** [for _, x := range l] over a slice. *)
Fixpoint for_each {S A} (body : A → M S unit) (l : list A) : M S unit :=
  match l with
  | [] => mret ()
  | x :: rest => body x ;; for_each body rest
  end.

Section Discovery.
Context {C S : Type} `{DockerClient C} `{VolumeDriver S} `{PathLib}.

(** The order in which a [range] over the map yields its entries: any
    function will do for the definitions, the properties ask that it
    yields every entry once ([range_order]). *)
Variable order : RefCountsMap → list (string * refCount).

(** The purge of the refcounts: [delete] on every name which the [range]
    yields. *)
Definition purge : M (World C S) unit :=
  λ w, ([], Ret (),
        set_refMap (foldl (λ m name, delete name m) (refMap w)
                          (order (refMap w)).*1) w).

Definition do_ContainerList (statuses : list string)
    : M (World C S) (list Container * option error) :=
  λ w, ([], Ret (ContainerList statuses (docker w)).1,
        set_docker (ContainerList statuses (docker w)).2 w).

Definition do_ContainerInspect (id : string)
    : M (World C S) (list MountPoint * option error) :=
  λ w, ([], Ret (ContainerInspect id (docker w)).1,
        set_docker (ContainerInspect id (docker w)).2 w).

Definition do_ClientInfo : M (World C S) (option error) :=
  λ w, ([], Ret (ClientInfo (docker w)).1,
        set_docker (ClientInfo (docker w)).2 w).

(** [r.Incr(vol)] on the map of the world. *)
Definition do_Incr (vol : string) : M (World C S) Z :=
  λ w, ([], Ret (Incr (refMap w) vol).1,
        set_refMap (Incr (refMap w) vol).2 w).

(** [r.getMountInfo()] on the map of the world; [file] is what reading the
    mounts file gives. *)
Definition do_getMountInfo (mountRoot : string) (file : string + error)
    : M (World C S) (option error) :=
  λ w, let res := getMountInfo mountRoot file (refMap w) in
       (ELog <$> res.1.2, Ret res.2, set_refMap res.1.1 w).

(** The loop over the mounts of a container. *)
Definition count_mounts (driverName : string) (mounts : list MountPoint)
    : M (World C S) unit :=
  for_each (λ mount,
    if String.eqb (Driver mount) driverName then
      do_Incr (Name mount) ;;
      logf LDebug msg_mount_counted
    else mret ()) mounts.

(** The loop over the containers. *)
Definition count_containers (driverName : string)
    (containers : list Container) : M (World C S) unit :=
  for_each (λ ct,
    res ← do_ContainerInspect (ID ct) ;
    match res.2 with
    | Some _ => logf LError msg_inspect_failed
    | None =>
        logf LDebug msg_mounts_for ;;
        count_mounts driverName res.1
    end) containers.

(** [r.syncMountsWithRefCounters(d)] on the map of the world, which the
    [range] yields in the order [order]. *)
Definition do_sync (driverName : string) : M (World C S) unit :=
  λ w, @syncMountsWithRefCounters (World C S) world_driver
         driverName (order (refMap w)) w.

(** The loop of [Init] which logs the volumes of the map. *)
Definition log_volumes : M (World C S) unit :=
  λ w, for_each (λ _, logf LInfo msg_volume) (order (refMap w)) w.

(** [discoverAndSync]: enumerates the volumes in use and builds the map,
    then syncs it with the mounts. [driverName] and [mountRoot] are the
    values which [Init] has given to the variables of these names. *)
Definition discoverAndSync (driverName mountRoot : string)
    (file : string + error) : M (World C S) (option error) :=
  purge ;;
  res ← do_ContainerList ["running"; "paused"; "restarting"] ;
  match res.2 with
  | Some err => mret (Some err)
  | None =>
      logf LDebug msg_found_containers ;;
      count_containers driverName res.1 ;;
      do_getMountInfo mountRoot file ;;
      do_sync driverName ;;
      mret None
  end.

(** What a call of [Init] gives: a panic of [log.Panicf] when the client
    cannot be made, with what was logged, or the run of the rest. *)
Inductive init_run :=
  | InitClientPanic (logged : list event) (w : World C S)
  | InitRun (x : list event * result unit * World C S).

(** [Init]: [getenv] is the value of [VDVS_DISCOVER_VOLUMES], [newClient]
    the error of [client.NewClient]. *)
Definition Init (getenv : string) (newClient : option error)
    (mountDir name : string) (file : string + error) (w : World C S)
    : init_run :=
  if String.eqb getenv "" then
    InitRun (logf LDebug msg_skip_discovery w)
  else
    match newClient with
    | Some _ => InitClientPanic [ELog (Log LPanic msg_client_failed)] w
    | None =>
        InitRun
          ((logf LInfo msg_getting_data ;;
            err ← do_ClientInfo ;
            match err with
            | Some _ => logf LInfo msg_cant_connect
            | None =>
                logf LDebug msg_docker_info ;;
                err ← discoverAndSync name mountDir file ;
                match err with
                | Some _ => logf LError msg_discover_failed
                | None =>
                    logf LInfo msg_discovered ;;
                    log_volumes
                end
            end) w)
    end.
End Discovery.

(** The mounts which the loop over the containers sees: those of the
    containers whose inspection succeeds, with the state of the engine
    after the inspections. *)
Fixpoint inspected {C} `{DockerClient C} (containers : list Container)
    (c : C) : list MountPoint * C :=
  match containers with
  | [] => ([], c)
  | ct :: rest =>
      let res := ContainerInspect (ID ct) c in
      let more := inspected rest res.2 in
      (match res.1.2 with
       | Some _ => more.1
       | None => res.1.1 ++ more.1
       end, more.2)
  end.

(** The names of the volumes of the driver [driverName] among mounts. *)
Definition driver_volumes (driverName : string) (mounts : list MountPoint)
    : list string :=
  Name <$> filter (λ mount, Driver mount = driverName) mounts.

(** An engine without state which answers from tables. *)
Definition table_docker (containers : list Container * option error)
    (mounts : string → list MountPoint * option error)
    (info : option error) : DockerClient unit :=
  {| ContainerList := λ _ c, (containers, c);
     ContainerInspect := λ id c, (mounts id, c);
     ClientInfo := λ c, (info, c) |}.

(** Two containers which both use the volume [shared] of the driver
    [vmdk], one of them also a local volume; a third one cannot be
    inspected. *)
Definition sample_docker : DockerClient unit :=
  table_docker
    ([MkContainer "c1" ["/web"]; MkContainer "c2" ["/db"];
      MkContainer "c3" ["/gone"]], None)
    (λ id,
       if String.eqb id "c1" then
         ([MkMountPoint "shared" "/mnt/vmdk/shared" "vmdk"], None)
       else if String.eqb id "c2" then
         ([MkMountPoint "cache" "/var/lib/docker/volumes/cache" "local";
           MkMountPoint "shared" "/mnt/vmdk/shared" "vmdk"], None)
       else ([], Some "no such container"))
    None.

(** An engine which cannot list its containers. *)
Definition broken_docker : DockerClient unit :=
  table_docker ([], Some "cannot list") (λ _, ([], None)) None.

(** An engine which does not answer. *)
Definition silent_docker : DockerClient unit :=
  table_docker ([], None) (λ _, ([], None)) (Some "cannot connect").

(** A world before a discovery: the map holds a count which nothing
    backs, Docker has two containers on the volume [shared]. *)
Definition stale_world : World unit unit :=
  MkWorld (<["old" := {| count := 7; mounted := false; dev := "" |}]> ∅)
          () ().

Definition stale_mounts : string + error :=
  inl "/dev/sdb1 /mnt/vmdk/stale ext4 rw,relatime 0 0".

(** * Properties *)

(** ** Unsigned integers *)

Lemma uint_modulus_pos : 0 < uint_modulus.
Proof. reflexivity. Qed.

Lemma uint_wrap_is_uint z : is_uint (uint_wrap z).
Proof. apply Z.mod_pos_bound, uint_modulus_pos. Qed.

Lemma uint_wrap_small z : is_uint z → uint_wrap z = z.
Proof. intros Hz. apply Z.mod_small, Hz. Qed.

Lemma uint_wrap_modulus : uint_wrap uint_modulus = 0.
Proof. apply Z.mod_same. pose proof uint_modulus_pos. lia. Qed.

(** ** What [GetCount] sees of [Incr] and [Decr] *)

Lemma GetCount_absent (r : RefCountsMap) vol :
  r !! vol = None → GetCount r vol = 0.
Proof. unfold GetCount. intros ->. reflexivity. Qed.

Lemma Incr_count (r : RefCountsMap) vol :
  (Incr r vol).1 = uint_wrap (GetCount r vol + 1).
Proof. unfold Incr, GetCount. destruct (r !! vol); reflexivity. Qed.

Lemma Incr_lookup_same (r : RefCountsMap) vol :
  (Incr r vol).2 !! vol =
  Some (set_count (uint_wrap (GetCount r vol + 1))
                  (default newRefCount (r !! vol))).
Proof.
  unfold Incr, GetCount.
  destruct (r !! vol); simpl; apply lookup_insert_eq.
Qed.

Lemma Incr_lookup_other (r : RefCountsMap) v vol :
  v ≠ vol → (Incr r v).2 !! vol = r !! vol.
Proof.
  intros Hne. unfold Incr.
  destruct (r !! v); simpl; by rewrite !lookup_insert_ne.
Qed.

Lemma GetCount_Incr_same (r : RefCountsMap) vol :
  GetCount (Incr r vol).2 vol = uint_wrap (GetCount r vol + 1).
Proof.
  unfold GetCount at 1. rewrite Incr_lookup_same. reflexivity.
Qed.

Lemma GetCount_Incr_other (r : RefCountsMap) v vol :
  v ≠ vol → GetCount (Incr r v).2 vol = GetCount r vol.
Proof. intros Hne. unfold GetCount. by rewrite Incr_lookup_other. Qed.

Lemma Decr_lookup_other (r : RefCountsMap) v vol :
  v ≠ vol → decr_map (Decr r v) !! vol = r !! vol.
Proof.
  intros Hne. unfold Decr.
  destruct (r !! v) as [rc|]; [|reflexivity].
  destruct (count rc =? 0); simpl.
  - by rewrite lookup_delete_ne.
  - destruct (uint_wrap (count rc - 1) <=? 0).
    + by rewrite lookup_delete_ne, lookup_insert_ne.
    + by rewrite lookup_insert_ne.
Qed.

Lemma GetCount_Decr_other (r : RefCountsMap) v vol :
  v ≠ vol → GetCount (decr_map (Decr r v)) vol = GetCount r vol.
Proof. intros Hne. unfold GetCount. by rewrite Decr_lookup_other. Qed.

(** On counts which are [uint] values, [Decr] takes one from the count
    that [GetCount] reports, and leaves it at 0 when it is 0. *)
Lemma GetCount_Decr_same (r : RefCountsMap) vol :
  is_uint (GetCount r vol) →
  GetCount (decr_map (Decr r vol)) vol = Z.max (GetCount r vol - 1) 0.
Proof.
  unfold GetCount, Decr. destruct (r !! vol) as [rc|] eqn:Hrc.
  - intros Hu. destruct (Z.eqb_spec (count rc) 0) as [H0|H0]; simpl.
    + rewrite lookup_delete_eq. lia.
    + rewrite uint_wrap_small by (unfold is_uint in *; lia).
      destruct (Z.leb_spec (count rc - 1) 0).
      * rewrite lookup_delete_eq. lia.
      * rewrite lookup_insert_eq. simpl. lia.
  - intros _. simpl. rewrite Hrc. reflexivity.
Qed.

Lemma n_incr_cons vol o ops :
  n_incr vol (o :: ops) =
  (if decide (o = OpIncr vol) then 1 else 0) + n_incr vol ops.
Proof.
  unfold n_incr. rewrite filter_cons.
  destruct (decide (o = OpIncr vol)); simpl length; lia.
Qed.

Lemma n_decr_cons vol o ops :
  n_decr vol (o :: ops) =
  (if decide (o = OpDecr vol) then 1 else 0) + n_decr vol ops.
Proof.
  unfold n_decr. rewrite filter_cons.
  destruct (decide (o = OpDecr vol)); simpl length; lia.
Qed.

Lemma n_incr_nonneg vol ops : 0 <= n_incr vol ops.
Proof. unfold n_incr. lia. Qed.

Lemma n_decr_nonneg vol ops : 0 <= n_decr vol ops.
Proof. unfold n_decr. lia. Qed.

(** The count after a matched sequence which starts with [pending]
    references, as long as the count stays a [uint]. *)
Lemma GetCount_run_ops vol ops : ∀ (r : RefCountsMap) pending,
  GetCount r vol = pending →
  0 <= pending →
  matched_from pending vol ops = true →
  pending + n_incr vol ops < uint_modulus →
  GetCount (run_ops ops r) vol = pending + n_incr vol ops - n_decr vol ops
  ∧ n_decr vol ops <= pending + n_incr vol ops.
Proof.
  induction ops as [|o ops IH]; intros r pending Hget Hpos Hm Hlt.
  - unfold run_ops, n_incr, n_decr. simpl. lia.
  - rewrite n_incr_cons in Hlt. rewrite n_incr_cons, n_decr_cons.
    pose proof (n_incr_nonneg vol ops) as Hi.
    unfold run_ops in *. simpl foldl.
    destruct o as [v|v]; simpl in Hm; cbn [run_op].
    + rewrite (decide_False (P := OpIncr v = OpDecr vol)) by discriminate.
      destruct (decide (v = vol)) as [->|Hne].
      * rewrite decide_True in Hlt by reflexivity.
        rewrite decide_True by reflexivity.
        assert (GetCount (Incr r vol).2 vol = pending + 1) as Hg.
        { rewrite GetCount_Incr_same, Hget.
          apply uint_wrap_small. unfold is_uint. lia. }
        destruct (IH _ _ Hg ltac:(lia) Hm ltac:(lia)) as [IH1 IH2]. lia.
      * rewrite decide_False in Hlt by congruence.
        rewrite decide_False by congruence.
        assert (GetCount (Incr r v).2 vol = pending) as Hg
          by (by rewrite GetCount_Incr_other).
        destruct (IH _ _ Hg ltac:(lia) Hm ltac:(lia)) as [IH1 IH2]. lia.
    + rewrite decide_False in Hlt by discriminate.
      rewrite (decide_False (P := OpDecr v = OpIncr vol)) by discriminate.
      destruct (decide (v = vol)) as [->|Hne].
      * apply andb_true_iff in Hm as [Hp Hm]. apply Z.ltb_lt in Hp.
        rewrite decide_True by reflexivity.
        assert (GetCount (decr_map (Decr r vol)) vol = pending - 1) as Hg.
        { rewrite GetCount_Decr_same by (rewrite Hget; unfold is_uint; lia).
          lia. }
        destruct (IH _ _ Hg ltac:(lia) Hm ltac:(lia)) as [IH1 IH2]. lia.
      * rewrite decide_False by congruence.
        assert (GetCount (decr_map (Decr r v)) vol = pending) as Hg
          by (by rewrite GetCount_Decr_other).
        destruct (IH _ _ Hg ltac:(lia) Hm ltac:(lia)) as [IH1 IH2]. lia.
Qed.

Lemma GetCount_never_incremented vol ops : ∀ (r : RefCountsMap),
  GetCount r vol = 0 → n_incr vol ops = 0 → GetCount (run_ops ops r) vol = 0.
Proof.
  induction ops as [|o ops IH]; intros r Hget Hn; [exact Hget|].
  rewrite n_incr_cons in Hn. pose proof (n_incr_nonneg vol ops).
  unfold run_ops in *. simpl foldl.
  destruct (decide (o = OpIncr vol)) as [->|Hne]; [lia|].
  apply IH; [|lia]. destruct o as [v|v]; cbn [run_op].
  - rewrite GetCount_Incr_other by congruence. exact Hget.
  - destruct (decide (v = vol)) as [->|Hv].
    + rewrite GetCount_Decr_same by (rewrite Hget; done). lia.
    + rewrite GetCount_Decr_other by done. exact Hget.
Qed.

(** [k] increments in a row. *)
Lemma matched_from_replicate_Incr vol k : ∀ pending,
  matched_from pending vol (replicate k (OpIncr vol)) = true.
Proof.
  induction k as [|k IH]; intros pending; [reflexivity|].
  cbn [replicate matched_from]. apply IH.
Qed.

Lemma n_incr_replicate_Incr vol k :
  n_incr vol (replicate k (OpIncr vol)) = Z.of_nat k.
Proof.
  induction k as [|k IH]; [reflexivity|].
  cbn [replicate]. rewrite n_incr_cons, IH, decide_True by reflexivity. lia.
Qed.

Lemma n_decr_replicate_Incr vol k :
  n_decr vol (replicate k (OpIncr vol)) = 0.
Proof.
  induction k as [|k IH]; [reflexivity|].
  cbn [replicate]. rewrite n_decr_cons, IH, decide_False by discriminate. lia.
Qed.

Lemma GetCount_replicate_Incr vol k : ∀ (r : RefCountsMap),
  is_uint (GetCount r vol) →
  GetCount (run_ops (replicate k (OpIncr vol)) r) vol =
  uint_wrap (GetCount r vol + Z.of_nat k).
Proof.
  induction k as [|k IH]; intros r Hu.
  - cbn [replicate run_ops foldl]. rewrite Z.add_0_r.
    symmetry. by apply uint_wrap_small.
  - cbn [replicate]. unfold run_ops in *. cbn [foldl run_op].
    rewrite IH by (rewrite GetCount_Incr_same; apply uint_wrap_is_uint).
    rewrite GetCount_Incr_same. unfold uint_wrap.
    rewrite Zplus_mod_idemp_l. f_equal. lia.
Qed.

Lemma replicate_Incr_run vol k :
  matched vol (replicate k (OpIncr vol)) = true
  ∧ n_incr vol (replicate k (OpIncr vol)) = Z.of_nat k
  ∧ n_decr vol (replicate k (OpIncr vol)) = 0
  ∧ GetCount (run_ops (replicate k (OpIncr vol)) NewRefCountsMap) vol
    = uint_wrap (Z.of_nat k).
Proof.
  split; [apply matched_from_replicate_Incr|].
  split; [apply n_incr_replicate_Incr|].
  split; [apply n_decr_replicate_Incr|].
  rewrite GetCount_replicate_Incr.
  - by rewrite (GetCount_absent NewRefCountsMap vol) by apply lookup_empty.
  - rewrite (GetCount_absent NewRefCountsMap vol) by apply lookup_empty.
    pose proof uint_modulus_pos. unfold is_uint. lia.
Qed.

(** ** The refcount API *)

(** C1, as stated, fails: after [2^64] increments and no decrement of a
    volume of a new map the count has wrapped around to 0, and [GetCount]
    returns 0, not [max (2^64 - 0) 0]. *)
Lemma GetCount_wraps_after_modulus_increments :
  matched "vol1" wrapping_ops = true
  ∧ n_incr "vol1" wrapping_ops = uint_modulus
  ∧ n_decr "vol1" wrapping_ops = 0
  ∧ GetCount (run_ops wrapping_ops NewRefCountsMap) "vol1" = 0
  ∧ GetCount (run_ops wrapping_ops NewRefCountsMap) "vol1"
    ≠ Z.max (n_incr "vol1" wrapping_ops - n_decr "vol1" wrapping_ops) 0.
Proof.
  assert (Z.of_nat (Z.to_nat uint_modulus) = uint_modulus) as Hk
    by (apply Z2Nat.id; pose proof uint_modulus_pos; lia).
  destruct (replicate_Incr_run "vol1" (Z.to_nat uint_modulus))
    as (Hm & Hi & Hd & Hg).
  rewrite Hk in Hi, Hg. rewrite uint_wrap_modulus in Hg.
  rewrite Hm, Hi, Hd, Hg.
  split; [reflexivity|]. split; [reflexivity|]. split; [reflexivity|].
  split; [reflexivity|]. pose proof uint_modulus_pos. lia.
Qed.

(** C1 (amended): for every volume whose count is 0 (or which is not in the
    map), after any sequence of [n] calls of [Incr] and [m] calls of [Decr]
    on it, each [Decr] preceded by a matching [Incr], with [n < 2^64],
    whatever the calls on other volumes in between, [GetCount] returns
    [max (n - m) 0]; as long as it has never been incremented [GetCount]
    returns 0; and [Incr] on a volume which is not in the map makes a
    record with zero values, adds one and returns the new count, 1. *)
Theorem GetCount_after_matched_ops (r : RefCountsMap) (vol : string) :
  (∀ ops,
     GetCount r vol = 0 →
     matched vol ops = true →
     n_incr vol ops < uint_modulus →
     GetCount (run_ops ops r) vol
     = Z.max (n_incr vol ops - n_decr vol ops) 0)
  ∧ (∀ ops,
       GetCount r vol = 0 →
       n_incr vol ops = 0 →
       GetCount (run_ops ops r) vol = 0)
  ∧ (r !! vol = None →
     Incr r vol
     = (1, <[vol := {| count := 0 + 1; mounted := false; dev := "" |}]> r)).
Proof.
  split; [|split].
  - intros ops Hget Hm Hlt.
    destruct (GetCount_run_ops vol ops r 0 Hget ltac:(lia) Hm ltac:(lia))
      as [Heq Hle].
    rewrite Heq. lia.
  - intros ops. apply GetCount_never_incremented.
  - intros Hnone. unfold Incr. rewrite Hnone.
    cbn [newRefCount set_count count mounted dev].
    rewrite insert_insert_eq.
    rewrite uint_wrap_small by (unfold is_uint; split; [lia|reflexivity]).
    reflexivity.
Qed.

Lemma GetCount_after_matched_ops_witness :
  let ops := [OpIncr "vol1"; OpIncr "vol2"; OpIncr "vol1"; OpDecr "vol1"] in
  GetCount NewRefCountsMap "vol1" = 0
  ∧ matched "vol1" ops = true
  ∧ n_incr "vol1" ops < uint_modulus
  ∧ GetCount (run_ops ops NewRefCountsMap) "vol1" = 1
  ∧ GetCount (run_ops [OpDecr "vol1"; OpIncr "vol2"] NewRefCountsMap) "vol1"
    = 0
  ∧ Incr NewRefCountsMap "vol1"
    = (1, <["vol1" := {| count := 1; mounted := false; dev := "" |}]>
            NewRefCountsMap).
Proof.
  intros ops.
  destruct (GetCount_after_matched_ops NewRefCountsMap "vol1")
    as (Hseq & Hnever & Hincr).
  split; [reflexivity|]. split; [reflexivity|]. split; [reflexivity|].
  split; [|split].
  - exact (Hseq ops eq_refl eq_refl eq_refl).
  - exact (Hnever [OpDecr "vol1"; OpIncr "vol2"] eq_refl eq_refl).
  - exact (Hincr eq_refl).
Defined.

(** C2: for every volume which is not in the map, [Decr] returns the count
    0 with the error "Decr: Missing refcount. name=<vol>", and the map after
    the call is the map before it (and nothing is logged). *)
Theorem Decr_missing (r : RefCountsMap) (vol : string) :
  r !! vol = None →
  decr_count (Decr r vol) = 0
  ∧ decr_err (Decr r vol) = Some ("Decr: Missing refcount. name=" +:+ vol)
  ∧ decr_map (Decr r vol) = r
  ∧ decr_log (Decr r vol) = [].
Proof. intros Hnone. unfold Decr. rewrite Hnone. done. Qed.

Lemma Decr_missing_witness :
  let r : RefCountsMap :=
    <["vol2" := {| count := 3; mounted := true; dev := "/dev/sdb" |}]> ∅ in
  r !! "vol1" = None
  ∧ decr_count (Decr r "vol1") = 0
  ∧ decr_err (Decr r "vol1") = Some "Decr: Missing refcount. name=vol1"
  ∧ decr_map (Decr r "vol1") = r.
Proof.
  intros r. split; [reflexivity|].
  destruct (Decr_missing r "vol1" eq_refl) as (Hc & He & Hm & _).
  split; [exact Hc|]. split; [exact He|exact Hm].
Defined.

(** C3: for every volume whose record is in the map with count 0, [Decr]
    returns [(0, nil)] (after a warning), and deletes the entry, so that
    [GetCount] then returns 0 for the volume. *)
Theorem Decr_count_zero (r : RefCountsMap) (vol : string) (rc : refCount) :
  r !! vol = Some rc →
  count rc = 0 →
  decr_count (Decr r vol) = 0
  ∧ decr_err (Decr r vol) = None
  ∧ decr_map (Decr r vol) = delete vol r
  ∧ decr_map (Decr r vol) !! vol = None
  ∧ GetCount (decr_map (Decr r vol)) vol = 0
  ∧ decr_log (Decr r vol) = [Log LWarning msg_decr_already_zero].
Proof.
  intros Hrc H0. unfold Decr. rewrite Hrc, H0. cbn.
  unfold GetCount. rewrite lookup_delete_eq. done.
Qed.

Lemma Decr_count_zero_witness :
  let rc := {| count := 0; mounted := true; dev := "/dev/sdb" |} in
  let r : RefCountsMap := <["vol1" := rc]> ∅ in
  r !! "vol1" = Some rc
  ∧ count rc = 0
  ∧ decr_count (Decr r "vol1") = 0
  ∧ decr_err (Decr r "vol1") = None
  ∧ decr_map (Decr r "vol1") = delete "vol1" r
  ∧ GetCount (decr_map (Decr r "vol1")) "vol1" = 0.
Proof.
  intros rc r. split; [reflexivity|]. split; [reflexivity|].
  destruct (Decr_count_zero r "vol1" rc eq_refl eq_refl)
    as (Hc & He & Hm & _ & Hg & _).
  split; [exact Hc|]. split; [exact He|]. split; [exact Hm|exact Hg].
Defined.

(** C4: for every volume whose record is in the map with a count of at
    least 1 (a uint), [Decr] takes one from the count and returns
    [(count - 1, nil)]; when the new count is [<= 0] the entry is deleted,
    with its mounted flag and device, whatever the flag is; otherwise the
    entry keeps its flag and device with the new count. *)
Theorem Decr_count_positive (r : RefCountsMap) (vol : string) (rc : refCount) :
  r !! vol = Some rc →
  1 <= count rc →
  is_uint (count rc) →
  decr_count (Decr r vol) = count rc - 1
  ∧ decr_err (Decr r vol) = None
  ∧ decr_map (Decr r vol)
    = (if count rc - 1 <=? 0 then delete vol r
       else <[vol := {| count := count rc - 1;
                        mounted := mounted rc; dev := dev rc |}]> r)
  ∧ (count rc - 1 <= 0 → decr_map (Decr r vol) !! vol = None).
Proof.
  intros Hrc H1 Hu. unfold Decr. rewrite Hrc.
  destruct (Z.eqb_spec (count rc) 0) as [?|_]; [lia|].
  cbn [set_count count decr_count decr_err decr_map].
  rewrite uint_wrap_small by (unfold is_uint in *; lia).
  destruct (Z.leb_spec (count rc - 1) 0) as [Hle|Hgt].
  - rewrite delete_insert_eq, lookup_delete_eq. done.
  - split; [done|]. split; [done|]. split; [done|]. intros. lia.
Qed.

Lemma Decr_count_positive_witness :
  let rc := {| count := 1; mounted := true; dev := "/dev/sdb" |} in
  let r : RefCountsMap := <["vol1" := rc]> ∅ in
  r !! "vol1" = Some rc
  ∧ 1 <= count rc
  ∧ is_uint (count rc)
  ∧ decr_count (Decr r "vol1") = 0
  ∧ decr_err (Decr r "vol1") = None
  ∧ decr_map (Decr r "vol1") !! "vol1" = None.
Proof.
  intros rc r.
  assert (1 <= count rc) as H1 by (cbn; lia).
  assert (is_uint (count rc)) as Hu by (split; [cbn; lia|reflexivity]).
  split; [reflexivity|]. split; [exact H1|]. split; [exact Hu|].
  destruct (Decr_count_positive r "vol1" rc eq_refl H1 Hu)
    as (Hc & He & _ & Hd).
  split; [exact Hc|]. split; [exact He|]. apply Hd. cbn. lia.
Defined.

(** C10: [Decr] never returns a negative count: the count is an unsigned
    integer, so that the count it returns is [>= 0] for every map and
    volume, and the branch which warns about a negative refcount is never
    taken. *)
Theorem Decr_never_negative (r : RefCountsMap) (vol : string) :
  0 <= decr_count (Decr r vol)
  ∧ Log LWarning msg_decr_negative ∉ decr_log (Decr r vol).
Proof.
  unfold Decr. destruct (r !! vol) as [rc|]; cbn.
  - destruct (count rc =? 0); cbn.
    + split; [lia|]. intros Hin. apply list_elem_of_singleton in Hin.
      discriminate Hin.
    + pose proof (uint_wrap_is_uint (count rc - 1)) as [Hge _].
      destruct (Z.ltb_spec (uint_wrap (count rc - 1)) 0); [lia|].
      split; [lia|]. apply not_elem_of_nil.
  - split; [lia|]. apply not_elem_of_nil.
Qed.

(** ** The scan of the mount table *)

(** The body of the loop of the scan on one line: a line whose second
    field has the mount root as its parent directory sets the mounted flag
    and the device of the record named by the last element of the mount
    point (the count is kept: 0 for a new record); a line with fewer than
    two fields, or whose parent directory is not the root, leaves the map
    as it is. *)
Theorem scan_line_spec `{PathLib} (mountRoot line : string)
    (r : RefCountsMap) (logs : list logrec) :
  (∀ field0 field1 rest,
     strings_Fields line = field0 :: field1 :: rest →
     filepath_Dir field1 = mountRoot →
     (scan_line mountRoot (r, logs) line).1
     = <[filepath_Base field1 :=
           {| count := GetCount r (filepath_Base field1);
              mounted := true; dev := field0 |}]> r)
  ∧ ((length (strings_Fields line) < 2)%nat →
     scan_line mountRoot (r, logs) line = (r, logs))
  ∧ (∀ field0 field1 rest,
       strings_Fields line = field0 :: field1 :: rest →
       filepath_Dir field1 ≠ mountRoot →
       scan_line mountRoot (r, logs) line = (r, logs)).
Proof.
  unfold scan_line. split; [|split].
  - intros field0 field1 rest -> Hdir.
    rewrite bool_decide_eq_false_2 by (intros Hne; by apply Hne).
    cbn [fst]. unfold GetCount.
    by destruct (r !! filepath_Base field1).
  - intros Hlen. destruct (strings_Fields line) as [|f0 [|f1 rest]];
      [reflexivity|reflexivity|]. cbn [length] in Hlen. lia.
  - intros field0 field1 rest -> Hdir.
    by rewrite bool_decide_eq_true_2.
Qed.

Lemma scan_line_spec_witness :
  let r : RefCountsMap :=
    <["vol1" := {| count := 2; mounted := false; dev := "" |}]> ∅ in
  let H := ascii_paths in
  strings_Fields "/dev/sdb1 /mnt/vmdk/vol1 ext4 rw,relatime 0 0"
  = ["/dev/sdb1"; "/mnt/vmdk/vol1"; "ext4"; "rw,relatime"; "0"; "0"]
  ∧ filepath_Dir "/mnt/vmdk/vol1" = "/mnt/vmdk"
  ∧ (scan_line "/mnt/vmdk" (r, [])
       "/dev/sdb1 /mnt/vmdk/vol1 ext4 rw,relatime 0 0").1
    = <["vol1" := {| count := 2; mounted := true; dev := "/dev/sdb1" |}]> r
  ∧ (length (strings_Fields "none") < 2)%nat
  ∧ scan_line "/mnt/vmdk" (r, []) "none" = (r, [])
  ∧ strings_Fields "/dev/sda1 /boot ext4 rw 0 0"
    = ["/dev/sda1"; "/boot"; "ext4"; "rw"; "0"; "0"]
  ∧ filepath_Dir "/boot" ≠ "/mnt/vmdk"
  ∧ scan_line "/mnt/vmdk" (r, []) "/dev/sda1 /boot ext4 rw 0 0" = (r, []).
Proof.
  intros r H.
  assert (strings_Fields "/dev/sdb1 /mnt/vmdk/vol1 ext4 rw,relatime 0 0"
          = ["/dev/sdb1"; "/mnt/vmdk/vol1"; "ext4"; "rw,relatime"; "0"; "0"])
    as Hf1 by (vm_compute; reflexivity).
  assert (filepath_Dir "/mnt/vmdk/vol1" = "/mnt/vmdk") as Hd1
    by (vm_compute; reflexivity).
  assert ((length (strings_Fields "none") < 2)%nat) as Hlen
    by (vm_compute; lia).
  assert (strings_Fields "/dev/sda1 /boot ext4 rw 0 0"
          = ["/dev/sda1"; "/boot"; "ext4"; "rw"; "0"; "0"])
    as Hf2 by (vm_compute; reflexivity).
  assert (filepath_Dir "/boot" ≠ "/mnt/vmdk") as Hd2
    by (vm_compute; discriminate).
  destruct (scan_line_spec "/mnt/vmdk"
              "/dev/sdb1 /mnt/vmdk/vol1 ext4 rw,relatime 0 0" r [])
    as (Hmatch & _ & _).
  destruct (scan_line_spec "/mnt/vmdk" "none" r []) as (_ & Hshort & _).
  destruct (scan_line_spec "/mnt/vmdk" "/dev/sda1 /boot ext4 rw 0 0" r [])
    as (_ & _ & Hother).
  split; [exact Hf1|]. split; [exact Hd1|].
  split; [|split; [exact Hlen|]].
  - rewrite (Hmatch _ _ _ Hf1 Hd1). vm_compute. reflexivity.
  - split; [exact (Hshort Hlen)|]. split; [exact Hf2|].
    split; [exact Hd2|]. exact (Hother _ _ _ Hf2 Hd2).
Defined.

(** What the scan does to the map [m] on one line, in the words of the
    mount table: nothing, or the record of the volume of the line is
    mounted from the device of the line. *)
Lemma scan_line_map `{PathLib} (mountRoot line : string) (m : RefCountsMap)
    (logs : list logrec) :
  (scan_line mountRoot (m, logs) line).1
  = match strings_Fields line with
    | field0 :: field1 :: _ =>
        if decide (filepath_Dir field1 = mountRoot) then
          <[filepath_Base field1 :=
              {| count := GetCount m (filepath_Base field1);
                 mounted := true; dev := field0 |}]> m
        else m
    | _ => m
    end.
Proof.
  unfold scan_line, GetCount.
  destruct (strings_Fields line) as [|f0 [|f1 rest]]; [done|done|].
  destruct (decide (filepath_Dir f1 = mountRoot)) as [Hdir|Hdir].
  - rewrite bool_decide_eq_false_2 by (intros Hne; by apply Hne).
    cbn [fst]. by destruct (m !! filepath_Base f1).
  - by rewrite bool_decide_eq_true_2.
Qed.

Lemma scan_lines_map `{PathLib} (mountRoot : string) (lines : list string) :
  ∀ (m : RefCountsMap) (logs : list logrec),
    (foldl (scan_line mountRoot) (m, logs) lines).1
    = foldl (scan_step mountRoot) m lines.
Proof.
  induction lines as [|line lines IH]; intros m logs; [done|].
  cbn [foldl].
  destruct (scan_line mountRoot (m, logs) line) as [m1 logs1] eqn:Hline.
  rewrite IH. f_equal.
  change m1 with (m1, logs1).1. rewrite <- Hline.
  apply scan_line_map.
Qed.

(** C5: the scan of the mount table. [getMountInfo] on a file which is
    read returns no error, and the map it leaves is the map it is given
    after the lines of the file (the pieces between its newlines), taken
    one after the other. For every line of the table whose second field
    has the mount root as its parent directory, the scan fetches or makes
    the record named by the last element of the mount point and sets its
    mounted flag and, as its device, the first field of the line (the
    count is kept: 0 for a new record); every line with fewer than two
    fields, or whose parent directory is not the root, leaves the map as
    it is. *)
Theorem getMountInfo_scans_table `{PathLib} (mountRoot data : string)
    (r : RefCountsMap) :
  let lines := strings_Split data newline in
  let scanned := (getMountInfo mountRoot (inl data) r).1.1 in
  (getMountInfo mountRoot (inl data) r).2 = None
  ∧ ∃ maps : list RefCountsMap,
      (* the map before each line, and after the last one *)
      length maps = S (length lines)
      ∧ maps !! 0%nat = Some r
      ∧ maps !! length lines = Some scanned
      ∧ ∀ (i : nat) line before here,
          lines !! i = Some line →
          maps !! i = Some before →
          maps !! S i = Some here →
          (∀ field0 field1 rest,
             strings_Fields line = field0 :: field1 :: rest →
             filepath_Dir field1 = mountRoot →
             here
             = <[filepath_Base field1 :=
                   {| count := GetCount before (filepath_Base field1);
                      mounted := true; dev := field0 |}]> before)
          ∧ ((length (strings_Fields line) < 2)%nat → here = before)
          ∧ (∀ field0 field1 rest,
               strings_Fields line = field0 :: field1 :: rest →
               filepath_Dir field1 ≠ mountRoot →
               here = before).
Proof.
  intros lines scanned. split; [done|].
  assert (scanned = foldl (scan_step mountRoot) r lines) as ->
    by (subst scanned lines; cbn [getMountInfo fst]; apply scan_lines_map).
  clearbody lines. revert r.
  induction lines as [|line lines IH]; intros r.
  - exists [r]. split; [done|]. split; [done|]. split; [done|].
    intros i line before here Hline. by destruct i.
  - destruct (IH (scan_step mountRoot r line))
      as (maps & Hlen & H0 & Hlast & Hstep).
    exists (r :: maps). cbn [length foldl]. split; [by rewrite Hlen|].
    split; [done|]. split; [done|].
    intros [|i] l before here Hl Hb Hh.
    + cbn in Hl, Hb. injection Hl as <-. injection Hb as <-.
      change (maps !! 0%nat = Some here) in Hh.
      rewrite H0 in Hh. injection Hh as <-.
      unfold scan_step. split; [|split].
      * intros f0 f1 rest -> Hd. by rewrite decide_True.
      * intros Hlen'. destruct (strings_Fields line) as [|f0 [|f1 rest]];
          [done|done|]. cbn [length] in Hlen'. lia.
      * intros f0 f1 rest -> Hd. by rewrite decide_False.
    + by apply (Hstep i).
Qed.

Lemma getMountInfo_scans_table_witness :
  let r : RefCountsMap :=
    <["vol1" := {| count := 2; mounted := false; dev := "" |}]> ∅ in
  let H := ascii_paths in
  let line0 := "/dev/sda1 /boot ext4 rw 0 0" in
  let line1 := "/dev/sdb1 /mnt/vmdk/vol1 ext4 rw,relatime 0 0" in
  let data := line0 +:+ String newline line1 in
  strings_Split data newline = [line0; line1]
  ∧ strings_Fields line0 = ["/dev/sda1"; "/boot"; "ext4"; "rw"; "0"; "0"]
  ∧ filepath_Dir "/boot" ≠ "/mnt/vmdk"
  ∧ strings_Fields line1
    = ["/dev/sdb1"; "/mnt/vmdk/vol1"; "ext4"; "rw,relatime"; "0"; "0"]
  ∧ filepath_Dir "/mnt/vmdk/vol1" = "/mnt/vmdk"
  ∧ (getMountInfo "/mnt/vmdk" (inl data) r).2 = None
  ∧ (getMountInfo "/mnt/vmdk" (inl data) r).1.1
    = <[filepath_Base "/mnt/vmdk/vol1" :=
          {| count := GetCount r (filepath_Base "/mnt/vmdk/vol1");
             mounted := true; dev := "/dev/sdb1" |}]> r.
Proof.
  intros r H line0 line1 data.
  assert (strings_Split data newline = [line0; line1]) as Hsplit
    by (vm_compute; reflexivity).
  assert (strings_Fields line0
          = ["/dev/sda1"; "/boot"; "ext4"; "rw"; "0"; "0"]) as Hf0
    by (vm_compute; reflexivity).
  assert (filepath_Dir "/boot" ≠ "/mnt/vmdk") as Hd0
    by (vm_compute; discriminate).
  assert (strings_Fields line1
          = ["/dev/sdb1"; "/mnt/vmdk/vol1"; "ext4"; "rw,relatime"; "0"; "0"])
    as Hf1 by (vm_compute; reflexivity).
  assert (filepath_Dir "/mnt/vmdk/vol1" = "/mnt/vmdk") as Hd1
    by (vm_compute; reflexivity).
  destruct (getMountInfo_scans_table "/mnt/vmdk" data r)
    as (Herr & maps & Hlen & Hfirst & Hlast & Hstep).
  rewrite Hsplit in Hlen, Hlast, Hstep.
  destruct maps as [|m0 [|m1 [|m2 [|m3 maps]]]]; try discriminate Hlen.
  injection Hfirst as ->.
  change (Some m2 = Some (getMountInfo "/mnt/vmdk" (inl data) r).1.1)
    in Hlast.
  apply (inj Some) in Hlast.
  destruct (Hstep 0%nat line0 r m1 eq_refl eq_refl eq_refl)
    as (_ & _ & Hother).
  destruct (Hstep 1%nat line1 m1 m2 eq_refl eq_refl eq_refl)
    as (Hmatch & _ & _).
  pose proof (Hother _ _ _ Hf0 Hd0) as ->.
  pose proof (Hmatch _ _ _ Hf1 Hd1) as Hm2.
  split; [exact Hsplit|]. split; [exact Hf0|]. split; [exact Hd0|].
  split; [exact Hf1|]. split; [exact Hd1|]. split; [exact Herr|].
  rewrite <- Hlast. exact Hm2.
Defined.

(** The scan of a file: the lines are scanned one after the other. *)
Lemma getMountInfo_lines `{PathLib} (mountRoot data : string)
    (r : RefCountsMap) :
  getMountInfo mountRoot (inl data) r
  = (foldl (scan_line mountRoot) (r, []) (strings_Split data newline), None).
Proof. reflexivity. Qed.

(** A file which cannot be read leaves the map as it is. *)
Lemma getMountInfo_error `{PathLib} (mountRoot : string) (err : error)
    (r : RefCountsMap) :
  getMountInfo mountRoot (inr err) r
  = (r, [Log LError msg_cant_get_info], Some err).
Proof. reflexivity. Qed.

(** The scan of a table with an entry under the root and one outside. *)
Example getMountInfo_vol1 :
  (@getMountInfo ascii_paths "/mnt/vmdk"
     (inl ("/dev/sda1 / ext4 rw 0 0" +:+ String newline
           "/dev/sdb1 /mnt/vmdk/vol1 ext4 rw,relatime 0 0" +:+ String newline
           ""))
     NewRefCountsMap).1.1
  = <["vol1" := {| count := 0; mounted := true; dev := "/dev/sdb1" |}]> ∅.
Proof. vm_compute. reflexivity. Qed.

(** ** Computations *)

Lemma bind_run {S A B} (m : M S A) (k : A → M S B) (s : S) :
  (m ≫= k) s = and_then (m s) k.
Proof.
  unfold mbind, M_mbind, M_bind, and_then, events_of, result_of, state_of.
  destruct (m s) as [[e1 [a|c]] s1]; cbn; [|reflexivity].
  by destruct (k a s1) as [[e2 r2] s2].
Qed.

Lemma run_eta {S A} (x : list event * result A * S) :
  x = (events_of x, result_of x, state_of x).
Proof. by destruct x as [[e r] s]. Qed.

(** Membership in a list which is written out. *)
Ltac elem_cases :=
  let Hin := fresh "Hin" in
  intros Hin;
  repeat (apply elem_of_cons in Hin as [Hin|Hin]; [by subst|]);
  by apply elem_of_nil in Hin.

Lemma filter_none {A} (P : A → Prop) `{∀ x, Decision (P x)} (l : list A) :
  (∀ x, x ∈ l → ¬ P x) → filter P l = [].
Proof.
  induction l as [|x l IH]; intros Hall; [reflexivity|].
  rewrite filter_cons_False by (apply Hall; left).
  apply IH. intros y Hy. apply Hall. by right.
Qed.

Lemma read_only_access (status : gmap string value) :
  match status !! "access" with
  | Some access => bool_decide (access = VString "read-only")
  | None => false
  end = read_only status.
Proof.
  unfold read_only. destruct (status !! "access") as [v|]; [|done].
  apply bool_decide_ext. split; congruence.
Qed.

Section SyncProperties.
Context {S : Type} `{VolumeDriver S}.
Implicit Types (s : S) (vol driverName : string) (cnt : refCount).
Implicit Types (entries pre post : list (string * refCount)).

Lemma range_loop_cons (body : string → refCount → M S unit)
    vol cnt entries s :
  range_loop body ((vol, cnt) :: entries) s
  = and_then (body vol cnt s) (λ _, range_loop body entries).
Proof. cbn [range_loop]. apply bind_run. Qed.

Lemma range_loop_app (body : string → refCount → M S unit) pre post s :
  range_loop body (pre ++ post) s
  = and_then (range_loop body pre s) (λ _, range_loop body post).
Proof.
  revert s. induction pre as [|[v c] pre IH]; intros s.
  - cbn. unfold and_then. cbn. apply run_eta.
  - rewrite <- app_comm_cons, !range_loop_cons.
    unfold and_then at 1 3.
    destruct (result_of (body v c s)) as [[]|x]; [|reflexivity].
    rewrite IH. unfold and_then.
    destruct (result_of (range_loop body pre (state_of (body v c s))));
      cbn; by rewrite ?app_assoc.
Qed.

(** *** The four cases of the body of the loop *)

Lemma sync_record_mounted_unused driverName vol cnt s :
  mounted cnt = true → count cnt = 0 →
  sync_record driverName vol cnt s
  = ([ELog (Log LDebug msg_refcnt_record);
      ELog (Log LInfo msg_recovery_unmount);
      ECall (CallUnmountVolume vol)]
     ++ match (UnmountVolume vol s).1 with
        | Some _ => [ELog (Log LWarning msg_failed_unmount)]
        | None => []
        end,
     Ret (), (UnmountVolume vol s).2).
Proof.
  intros Hm H0. unfold sync_record. rewrite Hm, H0. cbn.
  unfold mbind, M_mbind, M_bind, logf, do_UnmountVolume.
  by destruct (UnmountVolume vol s) as [[e|] s1].
Qed.

Lemma sync_record_mounted_used driverName vol cnt s :
  mounted cnt = true → count cnt ≠ 0 →
  sync_record driverName vol cnt s
  = ([ELog (Log LDebug msg_refcnt_record)], Ret (), s).
Proof.
  intros Hm H0. apply Z.eqb_neq in H0.
  unfold sync_record. by rewrite Hm, H0.
Qed.

Lemma sync_record_unmounted_zero driverName vol cnt s :
  mounted cnt = false → count cnt = 0 →
  sync_record driverName vol cnt s
  = ([ELog (Log LDebug msg_refcnt_record);
      ELog (Log LPanic msg_should_not_exist)],
     Panicked RecordShouldNotExist, s).
Proof. intros Hm H0. unfold sync_record. by rewrite Hm, H0. Qed.

Lemma sync_record_GetVolume_failed driverName vol cnt s status err :
  mounted cnt = false → count cnt ≠ 0 →
  (GetVolume vol s).1 = (status, Some err) →
  sync_record driverName vol cnt s
  = ([ELog (Log LDebug msg_refcnt_record);
      ELog (Log LWarning msg_recovery_mount);
      ECall (CallGetVolume vol);
      ELog (Log LWarning msg_failed_mount)],
     Ret (), (GetVolume vol s).2).
Proof.
  intros Hm H0 Hget. apply Z.eqb_neq in H0.
  unfold sync_record. rewrite Hm, H0.
  unfold mbind, M_mbind, M_bind, logf, do_GetVolume.
  destruct (GetVolume vol s) as [res s1]. cbn in Hget. by subst res.
Qed.

Lemma sync_record_remount driverName vol cnt s status fstype :
  mounted cnt = false → count cnt ≠ 0 →
  (GetVolume vol s).1 = (status, None) →
  as_string (status !! "fstype") = Some fstype →
  let mnt := MountVolume vol fstype (disk_id driverName status)
               (read_only status) false (GetVolume vol s).2 in
  sync_record driverName vol cnt s
  = ([ELog (Log LDebug msg_refcnt_record);
      ELog (Log LWarning msg_recovery_mount);
      ECall (CallGetVolume vol)]
     ++ disk_id_events driverName status
     ++ [ECall (CallMountVolume vol fstype (disk_id driverName status)
                  (read_only status) false)]
     ++ match mnt.1.2 with
        | Some _ => [ELog (Log LWarning msg_failed_mount)]
        | None => []
        end,
     Ret (), mnt.2).
Proof.
  intros Hm H0 Hget Hfs mnt. apply Z.eqb_neq in H0.
  unfold sync_record. rewrite Hm, H0. subst mnt.
  unfold mbind, M_mbind, M_bind, logf, do_GetVolume.
  destruct (GetVolume vol s) as [res s1]. cbn in Hget. subst res.
  cbn. unfold recovery_mount, disk_id, disk_id_events.
  rewrite read_only_access.
  unfold mbind, M_mbind, M_bind, logf, do_MountVolume. rewrite Hfs.
  destruct (String.eqb driverName photonDriver);
    [destruct (as_string (status !! "ID")) as [id|]|]; cbn;
    match goal with
    | |- context [MountVolume ?a ?b ?c ?d ?e ?f] =>
        destruct (MountVolume a b c d e f) as [[mp [e'|]] s2]
    end; reflexivity.
Qed.

Lemma sync_record_no_fstype driverName vol cnt s status :
  mounted cnt = false → count cnt ≠ 0 →
  (GetVolume vol s).1 = (status, None) →
  as_string (status !! "fstype") = None →
  sync_record driverName vol cnt s
  = ([ELog (Log LDebug msg_refcnt_record);
      ELog (Log LWarning msg_recovery_mount);
      ECall (CallGetVolume vol)]
     ++ disk_id_events driverName status,
     Panicked InterfaceConversion, (GetVolume vol s).2).
Proof.
  intros Hm H0 Hget Hfs. apply Z.eqb_neq in H0.
  unfold sync_record. rewrite Hm, H0.
  unfold mbind, M_mbind, M_bind, logf, do_GetVolume.
  destruct (GetVolume vol s) as [res s1]. cbn in Hget. subst res.
  cbn. unfold recovery_mount, disk_id_events.
  unfold mbind, M_mbind, M_bind, logf, panic. rewrite Hfs.
  destruct (String.eqb driverName photonDriver);
    [destruct (as_string (status !! "ID")) as [id|]|]; reflexivity.
Qed.
(** *** The calls of the driver *)

Lemma calls_of_app (es1 es2 : list event) :
  calls_of (es1 ++ es2) = calls_of es1 ++ calls_of es2.
Proof. apply omap_app. Qed.

Lemma calls_on_app vol (es1 es2 : list event) :
  calls_on vol (es1 ++ es2) = calls_on vol es1 ++ calls_on vol es2.
Proof. unfold calls_on. by rewrite calls_of_app, filter_app. Qed.

Lemma calls_of_disk_id_events driverName status :
  calls_of (disk_id_events driverName status) = [].
Proof.
  unfold disk_id_events. destruct (String.eqb driverName photonDriver);
    [destruct (as_string (status !! "ID"))|]; reflexivity.
Qed.

(** The body of the loop only calls the driver about its own volume. *)
Lemma sync_record_calls_volume driverName vol cnt s c :
  c ∈ calls_of (events_of (sync_record driverName vol cnt s)) →
  call_volume c = vol.
Proof.
  destruct (mounted cnt) eqn:Hm;
    destruct (decide (count cnt = 0)) as [H0|H0].
  - rewrite sync_record_mounted_unused by done.
    unfold events_of. cbn [fst]. rewrite calls_of_app. cbn.
    destruct (UnmountVolume vol s).1; cbn; elem_cases.
  - rewrite sync_record_mounted_used by done. cbn. elem_cases.
  - rewrite sync_record_unmounted_zero by done. cbn. elem_cases.
  - destruct (GetVolume vol s).1 as [status [err|]] eqn:Hget.
    + erewrite sync_record_GetVolume_failed by done. cbn. elem_cases.
    + destruct (as_string (status !! "fstype")) as [fstype|] eqn:Hfs.
      * erewrite sync_record_remount by done.
        unfold events_of. cbn [fst].
        rewrite !calls_of_app, calls_of_disk_id_events. cbn.
        match goal with
        | |- context [match ?x with Some _ => _ | None => _ end] =>
            destruct x
        end; cbn; elem_cases.
      * erewrite sync_record_no_fstype by done.
        unfold events_of. cbn [fst].
        rewrite !calls_of_app, calls_of_disk_id_events. cbn. elem_cases.
Qed.

Lemma events_of_and_then {A B} (x : list event * result A * S)
    (k : A → M S B) :
  events_of (and_then x k)
  = events_of x ++ match result_of x with
                   | Ret a => events_of (k a (state_of x))
                   | Panicked _ => []
                   end.
Proof.
  unfold and_then. destruct (result_of x); cbn; [done|].
  by rewrite app_nil_r.
Qed.

Lemma sync_calls_volume driverName entries : ∀ s c,
  c ∈ calls_of (events_of (syncMountsWithRefCounters driverName entries s)) →
  call_volume c ∈ entries.*1.
Proof.
  unfold syncMountsWithRefCounters.
  induction entries as [|[v cnt] entries IH]; intros s c.
  - cbn. intros Hin. by apply elem_of_nil in Hin.
  - rewrite range_loop_cons, events_of_and_then, calls_of_app.
    intros [Hin|Hin]%elem_of_app; cbn [fmap list_fmap fst].
    + apply elem_of_cons. left. by eapply sync_record_calls_volume.
    + apply elem_of_cons. right.
      destruct (result_of (sync_record driverName v cnt s)).
      * by eapply IH.
      * by apply elem_of_nil in Hin.
Qed.

Lemma sync_calls_on_absent driverName entries vol s :
  vol ∉ entries.*1 →
  calls_on vol (events_of (syncMountsWithRefCounters driverName entries s))
  = [].
Proof.
  intros Hnotin. apply filter_none. intros c Hc Hvol.
  apply Hnotin. rewrite <- Hvol. by eapply sync_calls_volume.
Qed.

(** The run of the loop, when it gets to an entry without a panic. *)
Lemma sync_at_entry driverName pre vol cnt post s :
  result_of (syncMountsWithRefCounters driverName pre s) = Ret () →
  syncMountsWithRefCounters driverName (pre ++ (vol, cnt) :: post) s
  = let here :=
      and_then
        (sync_record driverName vol cnt
           (state_of (syncMountsWithRefCounters driverName pre s)))
        (λ _, syncMountsWithRefCounters driverName post) in
    (events_of (syncMountsWithRefCounters driverName pre s)
     ++ events_of here, result_of here, state_of here).
Proof.
  unfold syncMountsWithRefCounters. intros Hpre.
  rewrite range_loop_app. unfold and_then at 1. rewrite Hpre.
  by rewrite range_loop_cons.
Qed.

(** The calls about a volume are those of the body of the loop on its
    entry. *)
Lemma sync_calls_on_entry driverName pre vol cnt post s :
  NoDup ((pre ++ (vol, cnt) :: post).*1) →
  result_of (syncMountsWithRefCounters driverName pre s) = Ret () →
  calls_on vol
    (events_of
       (syncMountsWithRefCounters driverName (pre ++ (vol, cnt) :: post) s))
  = calls_on vol
      (events_of
         (sync_record driverName vol cnt
            (state_of (syncMountsWithRefCounters driverName pre s)))).
Proof.
  intros Hnd Hpre. rewrite fmap_app, fmap_cons in Hnd. cbn [fst] in Hnd.
  apply NoDup_app in Hnd as (_ & Hpre_post & Hpost).
  apply NoDup_cons in Hpost as [Hpost _].
  rewrite sync_at_entry by done. cbn zeta. unfold events_of at 1. cbn [fst].
  rewrite calls_on_app, events_of_and_then, calls_on_app.
  rewrite sync_calls_on_absent.
  2:{ intros Hin. apply (Hpre_post vol Hin). apply elem_of_cons. by left. }
  cbn [app].
  destruct (result_of (sync_record driverName vol cnt _)).
  - rewrite sync_calls_on_absent by done. apply app_nil_r.
  - apply app_nil_r.
Qed.

Lemma range_order_NoDup (r : RefCountsMap) entries :
  range_order r entries → NoDup (entries.*1).
Proof.
  unfold range_order. intros ->. apply NoDup_fst_map_to_list.
Qed.

Lemma range_order_lookup (r : RefCountsMap) entries vol cnt :
  range_order r entries → (vol, cnt) ∈ entries ↔ r !! vol = Some cnt.
Proof.
  unfold range_order. intros ->. apply elem_of_map_to_list.
Qed.
(** The run of the loop, when it gets to an entry without a panic and the
    body of the loop returns on this entry: the loop goes on with the
    entries which come after it. *)
Lemma sync_goes_on driverName pre vol cnt post s :
  result_of (syncMountsWithRefCounters driverName pre s) = Ret () →
  let here :=
    sync_record driverName vol cnt
      (state_of (syncMountsWithRefCounters driverName pre s)) in
  let rest := syncMountsWithRefCounters driverName post (state_of here) in
  result_of here = Ret () →
  syncMountsWithRefCounters driverName (pre ++ (vol, cnt) :: post) s
  = (events_of (syncMountsWithRefCounters driverName pre s)
     ++ events_of here ++ events_of rest,
     result_of rest, state_of rest).
Proof.
  intros Hpre here rest Hhere. rewrite sync_at_entry by done. cbn zeta.
  fold here. unfold and_then. rewrite Hhere. reflexivity.
Qed.

Lemma calls_on_cons_call vol c (es : list event) :
  call_volume c = vol → calls_on vol (ECall c :: es) = c :: calls_on vol es.
Proof.
  intros Hc. unfold calls_on.
  change (calls_of (ECall c :: es)) with (c :: calls_of es).
  by rewrite filter_cons_True.
Qed.

Lemma calls_on_cons_log vol l (es : list event) :
  calls_on vol (ELog l :: es) = calls_on vol es.
Proof. reflexivity. Qed.

Lemma calls_on_disk_id_events vol driverName status :
  calls_on vol (disk_id_events driverName status) = [].
Proof. unfold calls_on. by rewrite calls_of_disk_id_events. Qed.

Lemma as_string_Some (v : option value) (str : string) :
  as_string v = Some str ↔ v = Some (VString str).
Proof.
  destruct v as [[]|]; cbn; split; intros Heq; by simplify_eq.
Qed.

(** The calls of the body of the loop on an entry which is not mounted and
    has references: [GetVolume], then [MountVolume] when [GetVolume] has
    succeeded and the status has a string as its [fstype]. *)
Lemma sync_record_calls_unmounted_used driverName vol cnt s :
  mounted cnt = false → count cnt ≠ 0 →
  calls_on vol (events_of (sync_record driverName vol cnt s))
  = CallGetVolume vol
    :: match (GetVolume vol s).1.2,
             as_string ((GetVolume vol s).1.1 !! "fstype") with
       | None, Some fstype =>
           [CallMountVolume vol fstype
              (disk_id driverName (GetVolume vol s).1.1)
              (read_only (GetVolume vol s).1.1) false]
       | _, _ => []
       end.
Proof.
  intros Hm H0.
  destruct (GetVolume vol s).1 as [status [err|]] eqn:Hget; cbn [fst snd].
  - erewrite sync_record_GetVolume_failed by done.
    unfold events_of. cbn [fst].
    by rewrite !calls_on_cons_log, calls_on_cons_call.
  - destruct (as_string (status !! "fstype")) as [fstype|] eqn:Hfs.
    + erewrite sync_record_remount by done.
      unfold events_of. cbn [fst app].
      rewrite !calls_on_cons_log, calls_on_cons_call by done.
      rewrite calls_on_app, calls_on_disk_id_events. cbn [app].
      rewrite calls_on_cons_call by done.
      match goal with
      | |- context [match ?x with Some _ => _ | None => _ end] =>
          by destruct x
      end.
    + erewrite sync_record_no_fstype by done.
      unfold events_of. cbn [fst app].
      rewrite !calls_on_cons_log, calls_on_cons_call by done.
      by rewrite calls_on_disk_id_events.
Qed.

(** ** The reconciliation *)

(** C6 (amended): for every volume of the map with [mounted == true] whose
    entry the loop gets to (no entry before it in the order of the
    iteration made the reconciliation panic), the reconciliation calls
    [UnmountVolume] exactly once and nothing else of the driver for the
    volume when its count is 0, and calls nothing of the driver for it when
    its count is [> 0]; there is no call of [MountVolume] for it in either
    case; and whatever [UnmountVolume] returns (a failure is logged), the
    loop goes on with the volumes which remain. *)
Theorem sync_mounted_volume driverName (r : RefCountsMap) pre vol cnt post s :
  range_order r (pre ++ (vol, cnt) :: post) →
  mounted cnt = true →
  result_of (syncMountsWithRefCounters driverName pre s) = Ret () →
  let s1 := state_of (syncMountsWithRefCounters driverName pre s) in
  let here := sync_record driverName vol cnt s1 in
  let rest := syncMountsWithRefCounters driverName post (state_of here) in
  let run :=
    syncMountsWithRefCounters driverName (pre ++ (vol, cnt) :: post) s in
  r !! vol = Some cnt
  ∧ (count cnt = 0 →
     calls_on vol (events_of run) = [CallUnmountVolume vol])
  ∧ (0 < count cnt → calls_on vol (events_of run) = [])
  ∧ (∀ fstype id isReadOnly skipAttach,
       CallMountVolume vol fstype id isReadOnly skipAttach
       ∉ calls_of (events_of run))
  ∧ (count cnt = 0 →
     ∀ err, (UnmountVolume vol s1).1 = Some err →
       ELog (Log LWarning msg_failed_unmount) ∈ events_of run)
  ∧ result_of here = Ret ()
  ∧ run = (events_of (syncMountsWithRefCounters driverName pre s)
           ++ events_of here ++ events_of rest,
           result_of rest, state_of rest).
Proof.
  intros Hord Hm Hpre s1 here rest run.
  pose proof (range_order_NoDup _ _ Hord) as Hnd.
  assert (calls_on vol (events_of run)
          = if decide (count cnt = 0) then [CallUnmountVolume vol] else [])
    as Hcalls.
  { subst run. rewrite sync_calls_on_entry by done. fold s1.
    destruct (decide (count cnt = 0)) as [H0|H0].
    - rewrite sync_record_mounted_unused by done.
      unfold events_of. cbn [fst]. rewrite calls_on_app.
      unfold calls_on at 1. cbn. rewrite decide_True by done.
      by destruct (UnmountVolume vol s1).1.
    - by rewrite sync_record_mounted_used by done. }
  assert (result_of here = Ret ()) as Hhere.
  { subst here. destruct (decide (count cnt = 0)) as [H0|H0].
    - by rewrite sync_record_mounted_unused by done.
    - by rewrite sync_record_mounted_used by done. }
  assert (run = (events_of (syncMountsWithRefCounters driverName pre s)
                 ++ events_of here ++ events_of rest,
                 result_of rest, state_of rest)) as Hrun
    by (by apply sync_goes_on).
  split; [apply (range_order_lookup r _ vol cnt Hord), elem_of_app; right;
          apply elem_of_cons; by left|].
  split; [intros H0; by rewrite Hcalls, decide_True by done|].
  split; [intros H0; rewrite Hcalls, decide_False by lia; done|].
  split.
  { intros fstype id ro sk Hin.
    assert (CallMountVolume vol fstype id ro sk ∈ calls_on vol (events_of run))
      as Hin' by (by apply list_elem_of_filter).
    rewrite Hcalls in Hin'. destruct (decide (count cnt = 0)).
    - apply list_elem_of_singleton in Hin'. discriminate.
    - by apply elem_of_nil in Hin'. }
  split; [|done].
  intros H0 err Herr. rewrite Hrun. apply elem_of_app. right.
  apply elem_of_app. left. subst here.
  rewrite sync_record_mounted_unused by done. rewrite Herr.
  unfold events_of. cbn [fst]. apply elem_of_app. right.
  apply list_elem_of_singleton. reflexivity.
Qed.

(** On an entry which is mounted or has references the body of the loop
    does not take the branch of the record which should not exist. *)
Lemma sync_record_not_impossible driverName vol cnt s :
  ¬ (mounted cnt = false ∧ count cnt = 0) →
  (ELog (Log LPanic msg_should_not_exist)
     ∉ events_of (sync_record driverName vol cnt s))
  ∧ (result_of (sync_record driverName vol cnt s)
     ≠ Panicked RecordShouldNotExist).
Proof.
  intros Hnot.
  assert (ELog (Log LPanic msg_should_not_exist)
          ∉ disk_id_events driverName ((GetVolume vol s).1.1)) as Hid.
  { unfold disk_id_events. destruct (String.eqb driverName photonDriver);
      [destruct (as_string _)|]; elem_cases. }
  destruct (mounted cnt) eqn:Hm;
    destruct (decide (count cnt = 0)) as [H0|H0].
  - rewrite sync_record_mounted_unused by done.
    split; [|done]. unfold events_of. cbn [fst app].
    destruct (UnmountVolume vol s).1; elem_cases.
  - rewrite sync_record_mounted_used by done. split; [elem_cases|done].
  - destruct Hnot. done.
  - destruct (GetVolume vol s).1 as [status [err|]] eqn:Hget.
    + erewrite sync_record_GetVolume_failed by done.
      split; [elem_cases|done].
    + cbn [fst] in Hid.
      destruct (as_string (status !! "fstype")) as [fstype|] eqn:Hfs.
      * erewrite sync_record_remount by done.
        split; [|done]. unfold events_of. cbn [fst].
        rewrite !elem_of_app. intros [Hin|[Hin|[Hin|Hin]]]; [|done| |].
        -- revert Hin. elem_cases.
        -- revert Hin. elem_cases.
        -- revert Hin.
           match goal with
           | |- context [match ?x with Some _ => _ | None => _ end] =>
               destruct x
           end; elem_cases.
      * erewrite sync_record_no_fstype by done.
        split; [|done]. unfold events_of. cbn [fst].
        rewrite elem_of_app. intros [Hin|Hin]; [|done].
        revert Hin. elem_cases.
Qed.

Lemma sync_not_impossible driverName entries : ∀ s,
  (∀ vol cnt, (vol, cnt) ∈ entries →
     ¬ (mounted cnt = false ∧ count cnt = 0)) →
  (ELog (Log LPanic msg_should_not_exist)
     ∉ events_of (syncMountsWithRefCounters driverName entries s))
  ∧ (result_of (syncMountsWithRefCounters driverName entries s)
     ≠ Panicked RecordShouldNotExist).
Proof.
  unfold syncMountsWithRefCounters.
  induction entries as [|[v cnt] entries IH]; intros s Hall.
  - split; [elem_cases|done].
  - rewrite range_loop_cons.
    destruct (sync_record_not_impossible driverName v cnt s) as [Hev Hres];
      [apply (Hall v cnt); apply elem_of_cons; by left|].
    destruct (IH (state_of (sync_record driverName v cnt s))) as [IHev IHres];
      [intros v' c' Hin; apply (Hall v' c'); apply elem_of_cons; by right|].
    rewrite events_of_and_then. unfold and_then.
    destruct (result_of (sync_record driverName v cnt s)) as [[]|c]; cbn.
    + split; [|done]. rewrite elem_of_app. by intros [Hin|Hin].
    + split; [|done]. rewrite elem_of_app. intros [Hin|Hin]; [done|].
      by apply elem_of_nil in Hin.
Qed.


(** C8 (amended): for every volume of the map with [mounted == false] and
    [count > 0] whose entry the loop gets to (no entry before it in the
    order of the iteration made the reconciliation panic), the
    reconciliation calls [GetVolume] exactly once for the volume; when
    [GetVolume] fails, this is logged, nothing else is called for the
    volume and the loop goes on; when it succeeds with a status whose
    [fstype] is a string, the reconciliation calls [MountVolume] exactly
    once for the volume, with this [fstype] and with [isReadOnly] true if
    and only if the access of the status is "read-only", a failure of
    [MountVolume] is logged, and the loop goes on with the volumes which
    remain. *)
Theorem sync_unmounted_used_volume driverName (r : RefCountsMap)
    pre vol cnt post s :
  range_order r (pre ++ (vol, cnt) :: post) →
  mounted cnt = false →
  0 < count cnt →
  result_of (syncMountsWithRefCounters driverName pre s) = Ret () →
  let s1 := state_of (syncMountsWithRefCounters driverName pre s) in
  let status := (GetVolume vol s1).1.1 in
  let err := (GetVolume vol s1).1.2 in
  let here := sync_record driverName vol cnt s1 in
  let rest := syncMountsWithRefCounters driverName post (state_of here) in
  let run :=
    syncMountsWithRefCounters driverName (pre ++ (vol, cnt) :: post) s in
  r !! vol = Some cnt
  ∧ filter (λ c, c = CallGetVolume vol) (calls_of (events_of run))
    = [CallGetVolume vol]
  ∧ (is_Some err →
     calls_on vol (events_of run) = [CallGetVolume vol]
     ∧ ELog (Log LWarning msg_failed_mount) ∈ events_of here
     ∧ result_of here = Ret ())
  ∧ (∀ fstype,
       err = None →
       status !! "fstype" = Some (VString fstype) →
       let id := disk_id driverName status in
       let mnt :=
         MountVolume vol fstype id (read_only status) false
           (GetVolume vol s1).2 in
       calls_on vol (events_of run)
       = [CallGetVolume vol;
          CallMountVolume vol fstype id (read_only status) false]
       ∧ (read_only status = true
          ↔ status !! "access" = Some (VString "read-only"))
       ∧ (is_Some mnt.1.2 →
          ELog (Log LWarning msg_failed_mount) ∈ events_of here)
       ∧ result_of here = Ret ())
  ∧ (result_of here = Ret () →
     run = (events_of (syncMountsWithRefCounters driverName pre s)
            ++ events_of here ++ events_of rest,
            result_of rest, state_of rest)).
Proof.
  intros Hord Hm Hpos Hpre s1 status err here rest run.
  pose proof (range_order_NoDup _ _ Hord) as Hnd.
  assert (count cnt ≠ 0) as H0 by lia.
  assert (calls_on vol (events_of run) = calls_on vol (events_of here))
    as Hcalls by (subst run here s1; by apply sync_calls_on_entry).
  pose proof (sync_record_calls_unmounted_used driverName vol cnt s1 Hm H0)
    as Hhere. fold here status err in Hhere.
  split; [apply (range_order_lookup r _ vol cnt Hord), elem_of_app; right;
          apply elem_of_cons; by left|].
  split.
  { rewrite <- (list_filter_filter_l _ (λ c, call_volume c = vol))
      by (by intros c ->).
    fold (calls_on vol (events_of run)). rewrite Hcalls, Hhere.
    rewrite filter_cons_True by done.
    destruct err; [done|]. destruct (as_string (status !! "fstype")); done. }
  split.
  { intros [e He]. rewrite Hcalls, Hhere, He.
    assert ((GetVolume vol s1).1 = (status, Some e)) as Hget.
    { subst status. rewrite <- He. subst err.
      by destruct (GetVolume vol s1).1. }
    subst here. erewrite sync_record_GetVolume_failed by done.
    split; [done|]. split; [|done].
    unfold events_of. cbn [fst]. do 3 (apply elem_of_cons; right).
    apply elem_of_cons. by left. }
  split; [|intros Hret; subst run here rest s1; by apply sync_goes_on].
  intros fstype He Hfs id mnt.
  assert ((GetVolume vol s1).1 = (status, None)) as Hget.
  { subst status. rewrite <- He. subst err.
    by destruct (GetVolume vol s1).1. }
  apply as_string_Some in Hfs.
  rewrite Hcalls, Hhere, He, Hfs. split; [done|].
  split; [unfold read_only; apply bool_decide_eq_true|].
  subst here. erewrite sync_record_remount by done.
  split; [|done]. intros [e Hmnt]. fold id mnt. rewrite Hmnt.
  unfold events_of. cbn [fst]. rewrite !elem_of_app. right. right. right.
  apply list_elem_of_singleton. reflexivity.
Qed.

(** C9: on the path of the recovery mount ([mounted == false],
    [count > 0], [GetVolume] has succeeded), when the status has no
    [fstype] or its [fstype] is not a string, the type assertion
    [status["fstype"].(string)] makes the reconciliation panic: nothing
    logs the volume as needing a manual recovery, [MountVolume] is not
    called, and the volumes which remain are not reconciled. *)
Theorem sync_panics_without_fstype driverName pre vol cnt post s :
  mounted cnt = false →
  0 < count cnt →
  result_of (syncMountsWithRefCounters driverName pre s) = Ret () →
  let s1 := state_of (syncMountsWithRefCounters driverName pre s) in
  let status := (GetVolume vol s1).1.1 in
  (GetVolume vol s1).1.2 = None →
  (∀ fstype, status !! "fstype" ≠ Some (VString fstype)) →
  let here := sync_record driverName vol cnt s1 in
  let run :=
    syncMountsWithRefCounters driverName (pre ++ (vol, cnt) :: post) s in
  result_of run = Panicked InterfaceConversion
  ∧ events_of run
    = events_of (syncMountsWithRefCounters driverName pre s)
      ++ [ELog (Log LDebug msg_refcnt_record);
          ELog (Log LWarning msg_recovery_mount);
          ECall (CallGetVolume vol)]
      ++ disk_id_events driverName status
  ∧ (ELog (Log LWarning msg_failed_mount) ∉ events_of here)
  ∧ (∀ fstype id isReadOnly skipAttach,
       CallMountVolume vol fstype id isReadOnly skipAttach
       ∉ calls_of (events_of here))
  ∧ run = syncMountsWithRefCounters driverName (pre ++ [(vol, cnt)]) s.
Proof.
  intros Hm Hpos Hpre s1 status He Hnofs here run.
  assert (count cnt ≠ 0) as H0 by lia.
  assert ((GetVolume vol s1).1 = (status, None)) as Hget.
  { subst status. rewrite <- He. by destruct (GetVolume vol s1).1. }
  assert (as_string (status !! "fstype") = None) as Hfs.
  { destruct (as_string (status !! "fstype")) as [f|] eqn:Hf; [|done].
    apply as_string_Some in Hf. by destruct (Hnofs f). }
  pose proof (sync_record_no_fstype driverName vol cnt s1 status
                Hm H0 Hget Hfs) as Hhere. fold here in Hhere.
  assert (∀ post',
    syncMountsWithRefCounters driverName (pre ++ (vol, cnt) :: post') s
    = (events_of (syncMountsWithRefCounters driverName pre s)
       ++ events_of here, Panicked InterfaceConversion, state_of here))
    as Hrun.
  { intros post'. rewrite sync_at_entry by done. cbn zeta.
    fold s1 here. unfold and_then. by rewrite Hhere. }
  subst run. rewrite !Hrun, Hhere. unfold events_of. cbn [fst snd].
  split; [done|]. split; [done|]. split; [|split; [|done]].
  - rewrite elem_of_app. intros [Hin|Hin]; [revert Hin; elem_cases|].
    revert Hin. unfold disk_id_events.
    destruct (String.eqb driverName photonDriver);
      [destruct (as_string (status !! "ID"))|]; elem_cases.
  - intros fstype id ro sk. rewrite calls_of_app, calls_of_disk_id_events.
    cbn. elem_cases.
Qed.
End SyncProperties.

(** ** The reconciliation on examples *)

(** The order of the entries of a map which is written out. *)
Ltac solve_range_order :=
  unfold range_order; vm_compute;
  first [reflexivity | apply perm_swap].

(** C6, as stated, fails: [vol1] is mounted with count 0, but the loop gets
    to the record of [vol0] first, which should not exist, and panics
    there: [UnmountVolume] is never called for [vol1]. *)
Lemma sync_panic_skips_mounted_volume :
  let rc0 := {| count := 0; mounted := false; dev := "" |} in
  let rc1 := {| count := 0; mounted := true; dev := "/dev/sdb" |} in
  let r : RefCountsMap := <["vol0" := rc0]> (<["vol1" := rc1]> ∅) in
  let entries := [("vol0", rc0); ("vol1", rc1)] in
  let run := @syncMountsWithRefCounters unit good_driver "vmdk" entries () in
  range_order r entries
  ∧ r !! "vol1" = Some rc1
  ∧ mounted rc1 = true
  ∧ count rc1 = 0
  ∧ result_of run = Panicked RecordShouldNotExist
  ∧ calls_of (events_of run) = []
  ∧ calls_on "vol1" (events_of run) ≠ [CallUnmountVolume "vol1"].
Proof.
  intros rc0 rc1 r entries run.
  split; [solve_range_order|].
  split; [vm_compute; reflexivity|].
  split; [reflexivity|]. split; [reflexivity|].
  split; [vm_compute; reflexivity|].
  split; [vm_compute; reflexivity|].
  vm_compute. discriminate.
Qed.

Lemma sync_mounted_volume_witness :
  let rc1 := {| count := 0; mounted := true; dev := "/dev/sdb" |} in
  let rc3 := {| count := 5; mounted := true; dev := "/dev/sdc" |} in
  let r : RefCountsMap := <["vol1" := rc1]> (<["vol3" := rc3]> ∅) in
  let run :=
    @syncMountsWithRefCounters unit failing_driver "vmdk"
      ([("vol3", rc3)] ++ ("vol1", rc1) :: []) () in
  range_order r ([("vol3", rc3)] ++ ("vol1", rc1) :: [])
  ∧ range_order r ([] ++ ("vol3", rc3) :: [("vol1", rc1)])
  ∧ mounted rc1 = true
  ∧ mounted rc3 = true
  ∧ result_of
      (@syncMountsWithRefCounters unit failing_driver "vmdk"
         [("vol3", rc3)] ()) = Ret ()
  ∧ calls_on "vol1" (events_of run) = [CallUnmountVolume "vol1"]
  ∧ calls_on "vol3"
      (events_of
         (@syncMountsWithRefCounters unit failing_driver "vmdk"
            ([] ++ ("vol3", rc3) :: [("vol1", rc1)]) ())) = [].
Proof.
  intros rc1 rc3 r run.
  assert (range_order r ([("vol3", rc3)] ++ ("vol1", rc1) :: [])) as Hord1
    by solve_range_order.
  assert (range_order r ([] ++ ("vol3", rc3) :: [("vol1", rc1)])) as Hord3
    by solve_range_order.
  assert (result_of
            (@syncMountsWithRefCounters unit failing_driver "vmdk"
               [("vol3", rc3)] ()) = Ret ()) as Hpre
    by (vm_compute; reflexivity).
  split; [exact Hord1|]. split; [exact Hord3|].
  split; [reflexivity|]. split; [reflexivity|]. split; [exact Hpre|].
  split.
  - destruct (@sync_mounted_volume unit failing_driver "vmdk" r
                [("vol3", rc3)] "vol1" rc1 [] () Hord1 eq_refl Hpre)
      as (_ & Hzero & _).
    exact (Hzero eq_refl).
  - destruct (@sync_mounted_volume unit failing_driver "vmdk" r
                [] "vol3" rc3 [("vol1", rc1)] () Hord3 eq_refl eq_refl)
      as (_ & _ & Hused & _).
    apply Hused. cbn. lia.
Defined.


(** C8, as stated, fails: [vol2] is not mounted and has 3 references, but
    the loop gets to the record of [vol0] first, which should not exist,
    and panics there: [GetVolume] is never called for [vol2]. *)
Lemma sync_panic_skips_unmounted_volume :
  let rc0 := {| count := 0; mounted := false; dev := "" |} in
  let rc2 := {| count := 3; mounted := false; dev := "" |} in
  let r : RefCountsMap := <["vol0" := rc0]> (<["vol2" := rc2]> ∅) in
  let entries := [("vol0", rc0); ("vol2", rc2)] in
  let run := @syncMountsWithRefCounters unit good_driver "vmdk" entries () in
  range_order r entries
  ∧ r !! "vol2" = Some rc2
  ∧ mounted rc2 = false
  ∧ 0 < count rc2
  ∧ result_of run = Panicked RecordShouldNotExist
  ∧ calls_of (events_of run) = []
  ∧ filter (λ c, c = CallGetVolume "vol2") (calls_of (events_of run))
    ≠ [CallGetVolume "vol2"].
Proof.
  intros rc0 rc2 r entries run.
  split; [solve_range_order|].
  split; [vm_compute; reflexivity|].
  split; [reflexivity|]. split; [reflexivity|].
  split; [vm_compute; reflexivity|].
  split; [vm_compute; reflexivity|].
  vm_compute. discriminate.
Qed.

Lemma sync_unmounted_used_volume_witness :
  let rc1 := {| count := 0; mounted := true; dev := "/dev/sdb" |} in
  let rc2 := {| count := 3; mounted := false; dev := "" |} in
  let r : RefCountsMap := <["vol1" := rc1]> (<["vol2" := rc2]> ∅) in
  let entries := [("vol1", rc1)] ++ ("vol2", rc2) :: [] in
  let run := @syncMountsWithRefCounters unit good_driver "vmdk" entries () in
  let failed :=
    @syncMountsWithRefCounters unit failing_driver "vmdk" entries () in
  range_order r entries
  ∧ mounted rc2 = false
  ∧ 0 < count rc2
  ∧ result_of
      (@syncMountsWithRefCounters unit good_driver "vmdk" [("vol1", rc1)] ())
    = Ret ()
  ∧ calls_on "vol2" (events_of run)
    = [CallGetVolume "vol2";
       CallMountVolume "vol2" "ext4" "" false false]
  ∧ calls_on "vol2" (events_of failed) = [CallGetVolume "vol2"].
Proof.
  intros rc1 rc2 r entries run failed.
  assert (range_order r entries) as Hord by solve_range_order.
  assert (0 < count rc2) as Hpos by (cbn; lia).
  split; [exact Hord|]. split; [reflexivity|]. split; [exact Hpos|].
  split; [vm_compute; reflexivity|].
  split.
  - destruct (@sync_unmounted_used_volume unit good_driver "vmdk" r
                [("vol1", rc1)] "vol2" rc2 [] () Hord eq_refl Hpos eq_refl)
      as (_ & _ & _ & Hmount & _).
    destruct (Hmount "ext4" eq_refl eq_refl) as [Hcalls _].
    exact Hcalls.
  - destruct (@sync_unmounted_used_volume unit failing_driver "vmdk" r
                [("vol1", rc1)] "vol2" rc2 [] () Hord eq_refl Hpos eq_refl)
      as (_ & _ & Hfail & _).
    destruct Hfail as [Hcalls _]; [by eexists|]. exact Hcalls.
Defined.

Lemma sync_panics_without_fstype_witness :
  let rc1 := {| count := 0; mounted := true; dev := "/dev/sdb" |} in
  let rc2 := {| count := 3; mounted := false; dev := "" |} in
  let status : gmap string value := <["access" := VString "read-write"]> ∅ in
  let run :=
    @syncMountsWithRefCounters unit no_fstype_driver "vmdk"
      ([] ++ ("vol2", rc2) :: [("vol1", rc1)]) () in
  mounted rc2 = false
  ∧ 0 < count rc2
  ∧ (@GetVolume unit no_fstype_driver "vol2" ()).1 = (status, None)
  ∧ (∀ fstype, status !! "fstype" ≠ Some (VString fstype))
  ∧ result_of run = Panicked InterfaceConversion
  ∧ events_of run
    = [ELog (Log LDebug msg_refcnt_record);
       ELog (Log LWarning msg_recovery_mount);
       ECall (CallGetVolume "vol2")].
Proof.
  intros rc1 rc2 status run.
  assert (0 < count rc2) as Hpos by (cbn; lia).
  assert (∀ fstype, status !! "fstype" ≠ Some (VString fstype)) as Hnofs
    by (intros fstype; vm_compute; discriminate).
  split; [reflexivity|]. split; [exact Hpos|]. split; [reflexivity|].
  split; [exact Hnofs|].
  destruct (@sync_panics_without_fstype unit no_fstype_driver "vmdk"
              [] "vol2" rc2 [("vol1", rc1)] () eq_refl Hpos eq_refl
              eq_refl Hnofs) as (Hres & Hev & _).
  split; [exact Hres|exact Hev].
Defined.

(** The three scenarios of a reconciliation: a stale mount is unmounted, a
    volume in use which is not mounted is mounted read-write, a volume in
    use which is mounted is left alone. *)
Example sync_scenario_A :
  calls_of (events_of
    (@syncMountsWithRefCounters unit good_driver "vmdk"
       [("vol1", {| count := 0; mounted := true; dev := "/dev/sdb" |})] ()))
  = [CallUnmountVolume "vol1"].
Proof. vm_compute. reflexivity. Qed.

Example sync_scenario_B :
  calls_of (events_of
    (@syncMountsWithRefCounters unit good_driver "vmdk"
       [("vol2", {| count := 3; mounted := false; dev := "" |})] ()))
  = [CallGetVolume "vol2"; CallMountVolume "vol2" "ext4" "" false false].
Proof. vm_compute. reflexivity. Qed.

Example sync_scenario_C :
  calls_of (events_of
    (@syncMountsWithRefCounters unit good_driver "vmdk"
       [("vol3", {| count := 5; mounted := true; dev := "/dev/sdc" |})] ()))
  = [].
Proof. vm_compute. reflexivity. Qed.

(** * Further properties of the refcount API *)

Lemma set_count_same (rc : refCount) c :
  count rc = c → set_count c rc = rc.
Proof. intros <-. by destruct rc. Qed.

(** X1: a mount followed by an unmount. On a volume whose count can still
    grow, [Decr] after [Incr] returns the count the volume had, without
    error; the map is the one before the two calls when the volume had
    references or was not in the map, but a record with count 0 (a volume
    which the scan found mounted) is deleted, with its mounted flag and
    its device. *)
Theorem Incr_then_Decr (r : RefCountsMap) (vol : string) :
  is_uint (GetCount r vol) →
  GetCount r vol + 1 < uint_modulus →
  let d := Decr (Incr r vol).2 vol in
  decr_count d = GetCount r vol
  ∧ decr_err d = None
  ∧ decr_map d = (if decide (GetCount r vol = 0) then delete vol r else r)
  ∧ (r !! vol = None → decr_map d = r)
  ∧ (∀ rc, r !! vol = Some rc → count rc = 0 → decr_map d !! vol = None).
Proof.
  intros Hu Hlt d.
  assert (decr_count d = GetCount r vol ∧ decr_err d = None
          ∧ decr_map d
            = (if decide (GetCount r vol = 0) then delete vol r else r))
    as (Hc & He & Hm).
  { subst d. unfold Decr. rewrite Incr_lookup_same.
    cbn [set_count count mounted dev].
    rewrite (uint_wrap_small (GetCount r vol + 1))
      by (unfold is_uint in *; lia).
    destruct (Z.eqb_spec (GetCount r vol + 1) 0) as [?|_];
      [unfold is_uint in *; lia|].
    cbn [decr_count decr_err decr_map count set_count].
    replace (GetCount r vol + 1 - 1) with (GetCount r vol) by lia.
    rewrite (uint_wrap_small _ Hu).
    split; [done|]. split; [done|].
    assert (∀ x, delete vol (<[vol := x]> (Incr r vol).2) = delete vol r)
      as Hdel.
    { intros x. rewrite delete_insert_eq. unfold Incr.
      destruct (r !! vol); cbn; by rewrite ?delete_insert_eq. }
    destruct (decide (GetCount r vol = 0)) as [H0|H0].
    - rewrite H0. cbn. apply Hdel.
    - destruct (Z.leb_spec (GetCount r vol) 0) as [?|_];
        [unfold is_uint in *; lia|].
      unfold Incr, GetCount in *. destruct (r !! vol) as [rc|] eqn:Hrc;
        [|done]. cbn. rewrite insert_insert_eq. apply insert_id.
      rewrite Hrc. destruct rc. reflexivity. }
  split; [done|]. split; [done|]. split; [done|]. split.
  - intros Hnone. rewrite Hm, (GetCount_absent r vol Hnone).
    rewrite decide_True by done. by apply delete_id.
  - intros rc Hrc H0. rewrite Hm. unfold GetCount. rewrite Hrc, H0.
    rewrite decide_True by done. apply lookup_delete_eq.
Qed.

Lemma Incr_then_Decr_witness :
  let rc := {| count := 0; mounted := true; dev := "/dev/sdb" |} in
  let r : RefCountsMap := <["vol1" := rc]> ∅ in
  is_uint (GetCount r "vol1")
  ∧ GetCount r "vol1" + 1 < uint_modulus
  ∧ r !! "vol1" = Some rc
  ∧ decr_count (Decr (Incr r "vol1").2 "vol1") = 0
  ∧ decr_map (Decr (Incr r "vol1").2 "vol1") !! "vol1" = None.
Proof.
  intros rc r.
  assert (is_uint (GetCount r "vol1")) as Hu
    by (split; [vm_compute; discriminate|reflexivity]).
  assert (GetCount r "vol1" + 1 < uint_modulus) as Hlt by reflexivity.
  assert (r !! "vol1" = Some rc) as Hrc by (vm_compute; reflexivity).
  destruct (Incr_then_Decr r "vol1" Hu Hlt) as (Hc & _ & _ & _ & Hlost).
  split; [exact Hu|]. split; [exact Hlt|]. split; [exact Hrc|].
  split; [exact Hc|]. exact (Hlost rc Hrc eq_refl).
Defined.

(** X2: the count which [Incr] and [Decr] return is the count which
    [GetCount] reports after the call, in every case (also when [Decr]
    fails or deletes the entry). *)
Theorem returned_count_is_GetCount (r : RefCountsMap) (vol : string) :
  (Incr r vol).1 = GetCount (Incr r vol).2 vol
  ∧ decr_count (Decr r vol) = GetCount (decr_map (Decr r vol)) vol.
Proof.
  split.
  - by rewrite Incr_count, GetCount_Incr_same.
  - unfold Decr, GetCount. destruct (r !! vol) as [rc|] eqn:Hrc.
    + destruct (count rc =? 0); cbn.
      * by rewrite lookup_delete_eq.
      * destruct (Z.leb_spec (uint_wrap (count rc - 1)) 0) as [Hle|Hgt].
        -- rewrite lookup_delete_eq.
           pose proof (uint_wrap_is_uint (count rc - 1)) as [? _]. lia.
        -- by rewrite lookup_insert_eq.
    + cbn. by rewrite Hrc.
Qed.

(** X3: [Incr] and [Decr] on a volume leave the records of the other
    volumes as they are, and [Incr] keeps the mounted flag and the device
    of the record it increments. *)
Theorem Incr_Decr_frame (r : RefCountsMap) (v vol : string) :
  (v ≠ vol →
   (Incr r v).2 !! vol = r !! vol
   ∧ decr_map (Decr r v) !! vol = r !! vol)
  ∧ (∀ rc, r !! v = Some rc →
       ∃ rc', (Incr r v).2 !! v = Some rc'
              ∧ mounted rc' = mounted rc ∧ dev rc' = dev rc).
Proof.
  split.
  - intros Hne. split.
    + unfold Incr. destruct (r !! v); cbn; by rewrite !lookup_insert_ne.
    + unfold Decr. destruct (r !! v) as [rc|]; [|done].
      destruct (count rc =? 0); cbn; [by rewrite lookup_delete_ne|].
      destruct (uint_wrap (count rc - 1) <=? 0);
        by rewrite ?lookup_delete_ne, lookup_insert_ne.
  - intros rc Hrc. eexists. rewrite Incr_lookup_same, Hrc. done.
Qed.

Lemma Incr_Decr_frame_witness :
  let rc := {| count := 1; mounted := true; dev := "/dev/sdb" |} in
  let r : RefCountsMap := <["vol1" := rc]> ∅ in
  "vol2" ≠ "vol1"
  ∧ (Incr r "vol2").2 !! "vol1" = Some rc
  ∧ decr_map (Decr r "vol2") !! "vol1" = Some rc
  ∧ ∃ rc', (Incr r "vol1").2 !! "vol1" = Some rc'
           ∧ mounted rc' = true ∧ dev rc' = "/dev/sdb".
Proof.
  intros rc r.
  assert ("vol2" ≠ "vol1") as Hne by discriminate.
  assert (r !! "vol1" = Some rc) as Hrc by (vm_compute; reflexivity).
  destruct (Incr_Decr_frame r "vol2" "vol1") as [Hother _].
  destruct (Incr_Decr_frame r "vol1" "vol1") as [_ Hsame].
  destruct (Hother Hne) as [Hi Hd]. rewrite Hrc in Hi, Hd.
  split; [exact Hne|]. split; [exact Hi|]. split; [exact Hd|].
  exact (Hsame rc Hrc).
Defined.

(** ** Invariants *)

Lemma uint_counts_Incr (r : RefCountsMap) vol :
  uint_counts r → uint_counts (Incr r vol).2.
Proof.
  intros Hr. unfold Incr.
  destruct (r !! vol); cbn; rewrite ?insert_insert_eq;
    (apply map_Forall_insert_2; [apply uint_wrap_is_uint|done]).
Qed.

Lemma uint_counts_Decr (r : RefCountsMap) vol :
  uint_counts r → uint_counts (decr_map (Decr r vol)).
Proof.
  intros Hr. unfold Decr. destruct (r !! vol) as [rc|]; [|done].
  destruct (count rc =? 0); cbn; [by apply map_Forall_delete|].
  destruct (uint_wrap (count rc - 1) <=? 0).
  - rewrite delete_insert_eq. by apply map_Forall_delete.
  - apply map_Forall_insert_2; [apply uint_wrap_is_uint|done].
Qed.

Lemma uint_counts_GetCount (r : RefCountsMap) vol :
  uint_counts r → is_uint (GetCount r vol).
Proof.
  intros Hr. unfold GetCount. destruct (r !! vol) as [rc|] eqn:Hrc.
  - exact (Hr vol rc Hrc).
  - split; [lia|reflexivity].
Qed.

Lemma uint_counts_run_ops ops : ∀ (r : RefCountsMap),
  uint_counts r → uint_counts (run_ops ops r).
Proof.
  unfold run_ops. induction ops as [|[v|v] ops IH]; intros r Hr;
    [done| |]; cbn [foldl run_op]; apply IH.
  - by apply uint_counts_Incr.
  - by apply uint_counts_Decr.
Qed.

(** The counts of the map stay values of type [uint]: after any
    sequence of calls of [Incr] and [Decr] on a map whose counts are
    [uint] values (a new map is one), every count is a [uint] value, and so
    is what [GetCount] returns. *)
Theorem counts_stay_uint (r : RefCountsMap) (ops : list op) (vol : string) :
  uint_counts NewRefCountsMap
  ∧ (uint_counts r →
     uint_counts (run_ops ops r) ∧ is_uint (GetCount (run_ops ops r) vol)).
Proof.
  split; [apply map_Forall_empty|]. intros Hr.
  pose proof (uint_counts_run_ops ops r Hr) as Hops.
  split; [done|]. by apply uint_counts_GetCount.
Qed.

Lemma counts_stay_uint_witness :
  let ops := [OpIncr "vol1"; OpDecr "vol2"; OpDecr "vol1"; OpDecr "vol1"] in
  uint_counts NewRefCountsMap
  ∧ is_uint (GetCount (run_ops ops NewRefCountsMap) "vol1").
Proof.
  intros ops.
  destruct (counts_stay_uint NewRefCountsMap ops "vol1") as [Hnew Hkeep].
  split; [exact Hnew|]. exact (proj2 (Hkeep Hnew)).
Defined.

Lemma no_idle_record_Incr (r : RefCountsMap) vol :
  is_uint (GetCount r vol) → GetCount r vol + 1 < uint_modulus →
  no_idle_record r → no_idle_record (Incr r vol).2.
Proof.
  intros Hu Hlt Hr. intros v rc Hv.
  destruct (decide (v = vol)) as [->|Hne].
  - rewrite Incr_lookup_same in Hv. injection Hv as <-.
    cbn [count set_count]. rewrite uint_wrap_small
      by (unfold is_uint in *; lia).
    unfold is_uint in Hu. intros [_ H0]. lia.
  - rewrite Incr_lookup_other in Hv by done. exact (Hr v rc Hv).
Qed.

Lemma no_idle_record_Decr (r : RefCountsMap) vol :
  no_idle_record r → no_idle_record (decr_map (Decr r vol)).
Proof.
  intros Hr. unfold Decr. destruct (r !! vol) as [rc|]; [|done].
  destruct (count rc =? 0); cbn; [by apply map_Forall_delete|].
  destruct (Z.leb_spec (uint_wrap (count rc - 1)) 0) as [Hle|Hgt].
  - rewrite delete_insert_eq. by apply map_Forall_delete.
  - apply map_Forall_insert_2; [|done]. cbn. intros [_ H0]. lia.
Qed.

(** X4: the invariant of the map, no record without references which is
    not mounted, is kept by [Decr] in every case, and by [Incr] as long as
    the count does not wrap around; a new map has it. *)
Theorem no_idle_record_kept (r : RefCountsMap) (vol : string) :
  no_idle_record NewRefCountsMap
  ∧ (no_idle_record r → no_idle_record (decr_map (Decr r vol)))
  ∧ (no_idle_record r →
     is_uint (GetCount r vol) → GetCount r vol + 1 < uint_modulus →
     no_idle_record (Incr r vol).2).
Proof.
  split; [apply map_Forall_empty|]. split.
  - apply no_idle_record_Decr.
  - intros Hr Hu Hlt. by apply no_idle_record_Incr.
Qed.

Lemma no_idle_record_kept_witness :
  let r := (Incr NewRefCountsMap "vol1").2 in
  no_idle_record NewRefCountsMap
  ∧ is_uint (GetCount NewRefCountsMap "vol1")
  ∧ GetCount NewRefCountsMap "vol1" + 1 < uint_modulus
  ∧ no_idle_record r
  ∧ no_idle_record (decr_map (Decr r "vol1")).
Proof.
  intros r.
  assert (is_uint (GetCount NewRefCountsMap "vol1")) as Hu
    by (split; [vm_compute; discriminate|reflexivity]).
  assert (GetCount NewRefCountsMap "vol1" + 1 < uint_modulus) as Hlt
    by reflexivity.
  destruct (no_idle_record_kept NewRefCountsMap "vol1") as (Hnew & _ & Hincr).
  destruct (no_idle_record_kept r "vol1") as (_ & Hdecr & _).
  split; [exact Hnew|]. split; [exact Hu|]. split; [exact Hlt|].
  split; [exact (Hincr Hnew Hu Hlt)|].
  exact (Hdecr (Hincr Hnew Hu Hlt)).
Defined.

(** The record of a volume which was not in the map, along a matched
    sequence: none when all its increments are matched, otherwise a record
    with the number of references which are pending, not mounted. *)
Lemma lookup_run_ops vol ops : ∀ (r : RefCountsMap) pending,
  r !! vol = (if decide (pending = 0) then None
              else Some {| count := pending; mounted := false; dev := "" |}) →
  0 <= pending →
  matched_from pending vol ops = true →
  pending + n_incr vol ops < uint_modulus →
  run_ops ops r !! vol
  = (if decide (pending + n_incr vol ops - n_decr vol ops = 0) then None
     else Some {| count := pending + n_incr vol ops - n_decr vol ops;
                  mounted := false; dev := "" |}).
Proof.
  induction ops as [|o ops IH]; intros r pending Hlook Hpos Hm Hlt.
  - unfold run_ops, n_incr, n_decr. cbn.
    replace (pending + Z.of_nat 0 - Z.of_nat 0) with pending by lia.
    exact Hlook.
  - rewrite n_incr_cons in Hlt. rewrite n_incr_cons, n_decr_cons.
    pose proof (n_incr_nonneg vol ops) as Hi.
    assert (GetCount r vol = pending) as Hget.
    { unfold GetCount. rewrite Hlook. by destruct (decide (pending = 0)). }
    unfold run_ops in *. cbn [foldl].
    destruct o as [v|v]; cbn in Hm; cbn [run_op].
    + rewrite (decide_False (P := OpIncr v = OpDecr vol)) by discriminate.
      destruct (decide (v = vol)) as [->|Hne].
      * rewrite (decide_True (P := OpIncr vol = OpIncr vol)) in Hlt
          by reflexivity.
        rewrite (decide_True (P := OpIncr vol = OpIncr vol)) by reflexivity.
        replace (pending + (1 + n_incr vol ops) - (0 + n_decr vol ops))
          with (pending + 1 + n_incr vol ops - n_decr vol ops) by lia.
        apply IH; [|lia|done|lia].
        rewrite Incr_lookup_same, Hget, Hlook.
        rewrite uint_wrap_small by (unfold is_uint; lia).
        rewrite (decide_False (P := pending + 1 = 0)) by lia.
        by destruct (decide (pending = 0)).
      * rewrite (decide_False (P := OpIncr v = OpIncr vol)) in Hlt
          by congruence.
        rewrite (decide_False (P := OpIncr v = OpIncr vol)) by congruence.
        replace (pending + (0 + n_incr vol ops) - (0 + n_decr vol ops))
          with (pending + n_incr vol ops - n_decr vol ops) by lia.
        apply IH; [|lia|done|lia].
        by rewrite Incr_lookup_other.
    + rewrite (decide_False (P := OpDecr v = OpIncr vol)) in Hlt
        by discriminate.
      rewrite (decide_False (P := OpDecr v = OpIncr vol)) by discriminate.
      destruct (decide (v = vol)) as [->|Hne].
      * apply andb_true_iff in Hm as [Hp Hm]. apply Z.ltb_lt in Hp.
        rewrite (decide_True (P := OpDecr vol = OpDecr vol)) by reflexivity.
        replace (pending + (0 + n_incr vol ops) - (1 + n_decr vol ops))
          with (pending - 1 + n_incr vol ops - n_decr vol ops) by lia.
        apply IH; [|lia|done|lia].
        rewrite decide_False in Hlook by lia.
        unfold Decr. rewrite Hlook. cbn [count].
        destruct (Z.eqb_spec pending 0) as [?|_]; [lia|].
        cbn [decr_map set_count count mounted dev].
        rewrite uint_wrap_small by (unfold is_uint; lia).
        destruct (Z.leb_spec (pending - 1) 0) as [Hle|Hgt].
        -- rewrite lookup_delete_eq. by rewrite decide_True by lia.
        -- rewrite lookup_insert_eq. by rewrite decide_False by lia.
      * rewrite (decide_False (P := OpDecr v = OpDecr vol)) by congruence.
        replace (pending + (0 + n_incr vol ops) - (0 + n_decr vol ops))
          with (pending + n_incr vol ops - n_decr vol ops) by lia.
        apply IH; [|lia|done|lia].
        by rewrite Decr_lookup_other.
Qed.

(** X5: no record is left behind. For a volume which is not in the map,
    after a sequence of fewer than [2^64] calls of [Incr] and of calls of
    [Decr] on it, each [Decr] after an [Incr] of its own, the map has no
    entry for the volume when there are as many calls of [Decr] as of
    [Incr], and otherwise a record which is not mounted, without device,
    whose count is the number of calls of [Incr] which are not matched. *)
Theorem matched_ops_record (r : RefCountsMap) (vol : string) (ops : list op) :
  r !! vol = None →
  matched vol ops = true →
  n_incr vol ops < uint_modulus →
  run_ops ops r !! vol
  = (if decide (n_incr vol ops = n_decr vol ops) then None
     else Some {| count := n_incr vol ops - n_decr vol ops;
                  mounted := false; dev := "" |}).
Proof.
  intros Hnone Hm Hlt.
  rewrite (lookup_run_ops vol ops r 0) by (done || lia).
  destruct (decide (n_incr vol ops = n_decr vol ops)) as [Heq|Hne].
  - by rewrite decide_True by lia.
  - rewrite decide_False by lia. reflexivity.
Qed.

Lemma matched_ops_record_witness :
  let ops := [OpIncr "vol1"; OpIncr "vol1"; OpDecr "vol1"; OpDecr "vol1"] in
  NewRefCountsMap !! "vol1" = None
  ∧ matched "vol1" ops = true
  ∧ n_incr "vol1" ops < uint_modulus
  ∧ run_ops ops NewRefCountsMap !! "vol1" = None
  ∧ run_ops [OpIncr "vol1"] NewRefCountsMap !! "vol1"
    = Some {| count := 1; mounted := false; dev := "" |}.
Proof.
  intros ops.
  split; [reflexivity|]. split; [reflexivity|]. split; [reflexivity|].
  split.
  - exact (matched_ops_record NewRefCountsMap "vol1" ops
             eq_refl eq_refl eq_refl).
  - exact (matched_ops_record NewRefCountsMap "vol1" [OpIncr "vol1"]
             eq_refl eq_refl eq_refl).
Defined.

(** * Further properties of the scan of the mount table *)

Section ScanProperties.
Context `{PathLib}.

(** The body of the loop of the scan, by the mount of the line. *)
Lemma scan_line_line_mount (mountRoot line : string) (r : RefCountsMap)
    (logs : list logrec) :
  (scan_line mountRoot (r, logs) line).1
  = match line_mount mountRoot line with
    | Some (vol, d) =>
        <[vol := {| count := GetCount r vol; mounted := true; dev := d |}]> r
    | None => r
    end.
Proof.
  unfold scan_line, line_mount, GetCount.
  destruct (strings_Fields line) as [|f0 [|f1 rest]]; [done|done|].
  destruct (bool_decide (filepath_Dir f1 ≠ mountRoot)); [done|].
  cbn [fst]. by destruct (r !! filepath_Base f1).
Qed.

Lemma scan_line_logs_irrelevant (mountRoot line : string) (r : RefCountsMap)
    (logs logs' : list logrec) :
  (scan_line mountRoot (r, logs) line).1
  = (scan_line mountRoot (r, logs') line).1.
Proof. by rewrite !scan_line_line_mount. Qed.

Lemma scan_extends_refl (r : RefCountsMap) : scan_extends r r.
Proof.
  intros vol. destruct (r !! vol) as [rc|] eqn:Hrc; [by exists rc|].
  intros rc' Hrc'. congruence.
Qed.

Lemma scan_extends_trans (r1 r2 r3 : RefCountsMap) :
  scan_extends r1 r2 → scan_extends r2 r3 → scan_extends r1 r3.
Proof.
  intros H12 H23 vol. specialize (H12 vol). specialize (H23 vol).
  destruct (r1 !! vol) as [rc1|].
  - destruct H12 as (rc2 & Hrc2 & Hc2 & Hm2). rewrite Hrc2 in H23.
    destruct H23 as (rc3 & Hrc3 & Hc3 & Hm3).
    exists rc3. split; [done|]. split; [congruence|]. auto.
  - destruct (r2 !! vol) as [rc2|] eqn:Hrc2; [|done].
    destruct (H12 rc2 eq_refl) as [Hc2 Hm2].
    destruct H23 as (rc3 & Hrc3 & Hc3 & Hm3).
    intros rc' Hrc'. assert (rc' = rc3) as -> by congruence.
    split; [congruence|auto].
Qed.

Lemma scan_extends_line (mountRoot line : string) (r : RefCountsMap)
    (logs : list logrec) :
  scan_extends r (scan_line mountRoot (r, logs) line).1.
Proof.
  rewrite scan_line_line_mount.
  destruct (line_mount mountRoot line) as [[v d]|];
    [|apply scan_extends_refl].
  intros vol. destruct (decide (v = vol)) as [->|Hne].
  - rewrite lookup_insert_eq. unfold GetCount.
    destruct (r !! vol) as [rc|]; [by eexists|].
    intros rc' [= <-]. done.
  - rewrite lookup_insert_ne by done.
    destruct (r !! vol) as [rc|]; [by exists rc|]. done.
Qed.

Lemma scan_extends_lines (mountRoot : string) (lines : list string) :
  ∀ (r : RefCountsMap) (logs : list logrec),
    scan_extends r (foldl (scan_line mountRoot) (r, logs) lines).1.
Proof.
  induction lines as [|line lines IH]; intros r logs;
    [apply scan_extends_refl|].
  cbn [foldl].
  pose proof (scan_extends_line mountRoot line r logs) as Hstep.
  destruct (scan_line mountRoot (r, logs) line) as [r1 logs1].
  apply (scan_extends_trans r r1); [exact Hstep|apply IH].
Qed.

Lemma scan_extends_getMountInfo (mountRoot : string) (file : string + error)
    (r : RefCountsMap) :
  scan_extends r (getMountInfo mountRoot file r).1.1.
Proof.
  destruct file as [data|err]; cbn; [apply scan_extends_lines|].
  apply scan_extends_refl.
Qed.

Lemma scan_extends_GetCount (r r' : RefCountsMap) vol :
  scan_extends r r' → GetCount r' vol = GetCount r vol.
Proof.
  intros Hext. specialize (Hext vol). unfold GetCount.
  destruct (r !! vol) as [rc|].
  - by destruct Hext as (rc' & -> & Hc & _).
  - destruct (r' !! vol) as [rc'|]; [|done]. by destruct (Hext rc' eq_refl).
Qed.

Lemma scan_extends_no_idle_record (r r' : RefCountsMap) :
  scan_extends r r' → no_idle_record r → no_idle_record r'.
Proof.
  intros Hext Hr vol rc' Hrc' [Hm H0]. specialize (Hext vol).
  destruct (r !! vol) as [rc|] eqn:Hrc.
  - destruct Hext as (rc2 & Hrc2 & Hc & Hmono).
    assert (rc2 = rc') as -> by congruence.
    apply (Hr vol rc Hrc). split; [|congruence].
    destruct (mounted rc); [|done]. rewrite Hmono in Hm; done.
  - destruct (Hext rc' Hrc') as [_ Hmounted]. congruence.
Qed.

Lemma scan_extends_uint_counts (r r' : RefCountsMap) :
  scan_extends r r' → uint_counts r → uint_counts r'.
Proof.
  intros Hext Hr vol rc' Hrc'. specialize (Hext vol). cbn.
  destruct (r !! vol) as [rc|] eqn:Hrc.
  - destruct Hext as (rc2 & Hrc2 & Hc & _).
    assert (rc2 = rc') as -> by congruence.
    rewrite Hc. exact (Hr vol rc Hrc).
  - destruct (Hext rc' Hrc') as [-> _]. split; [lia|reflexivity].
Qed.

(** X6: [getMountInfo] only adds to the map. Whatever the mounts file holds,
    and also when it cannot be read, every record of the map is still
    there after the scan with its count, and mounted if it was; a record
    which the scan has made has the count 0 and is mounted. So the scan
    changes no count which [GetCount] reports, and keeps the two invariants
    of the map. *)
Theorem getMountInfo_extends (mountRoot : string) (file : string + error)
    (r : RefCountsMap) :
  let r' := (getMountInfo mountRoot file r).1.1 in
  (∀ vol rc, r !! vol = Some rc →
     ∃ rc', r' !! vol = Some rc' ∧ count rc' = count rc
            ∧ (mounted rc = true → mounted rc' = true))
  ∧ (∀ vol rc', r !! vol = None → r' !! vol = Some rc' →
       count rc' = 0 ∧ mounted rc' = true)
  ∧ (∀ vol, GetCount r' vol = GetCount r vol)
  ∧ (no_idle_record r → no_idle_record r')
  ∧ (uint_counts r → uint_counts r').
Proof.
  intros r'. pose proof (scan_extends_getMountInfo mountRoot file r) as Hext.
  fold r' in Hext. split; [|split; [|split; [|split]]].
  - intros vol rc Hrc. specialize (Hext vol). by rewrite Hrc in Hext.
  - intros vol rc' Hnone Hrc'. specialize (Hext vol).
    rewrite Hnone in Hext. by apply Hext.
  - intros vol. by apply scan_extends_GetCount.
  - by apply scan_extends_no_idle_record.
  - by apply scan_extends_uint_counts.
Qed.

(** A line which is not about [vol] leaves the record of [vol] as it is. *)
Lemma scan_line_lookup_other (mountRoot line vol : string)
    (r : RefCountsMap) (logs : list logrec) :
  (∀ d, line_mount mountRoot line ≠ Some (vol, d)) →
  (scan_line mountRoot (r, logs) line).1 !! vol = r !! vol.
Proof.
  intros Hother. rewrite scan_line_line_mount.
  destruct (line_mount mountRoot line) as [[v d]|]; [|done].
  apply lookup_insert_ne. intros ->. by apply (Hother d).
Qed.

Lemma scan_lines_lookup_other (mountRoot vol : string)
    (lines : list string) : ∀ (r : RefCountsMap) (logs : list logrec),
  (∀ line d, line ∈ lines → line_mount mountRoot line ≠ Some (vol, d)) →
  (foldl (scan_line mountRoot) (r, logs) lines).1 !! vol = r !! vol.
Proof.
  induction lines as [|line lines IH]; intros r logs Hother; [done|].
  cbn [foldl].
  destruct (scan_line mountRoot (r, logs) line) as [r1 logs1] eqn:Hline.
  rewrite IH by (intros l d Hl; apply Hother; by right).
  change r1 with (r1, logs1).1. rewrite <- Hline.
  apply scan_line_lookup_other. intros d. apply Hother. by left.
Qed.

(** X7: the last line about a volume decides. When the mounts file has a
    line which mounts [vol] from the device [d] under the mount root, and
    no line after it is about [vol], then after the scan the record of
    [vol] is mounted from [d], with the count the volume had before the
    scan. *)
Theorem getMountInfo_last_line (mountRoot data : string) (r : RefCountsMap)
    (pre post : list string) (line vol d : string) :
  strings_Split data newline = pre ++ line :: post →
  line_mount mountRoot line = Some (vol, d) →
  (∀ line' d', line' ∈ post → line_mount mountRoot line' ≠ Some (vol, d')) →
  (getMountInfo mountRoot (inl data) r).1.1 !! vol
  = Some {| count := GetCount r vol; mounted := true; dev := d |}
  ∧ (getMountInfo mountRoot (inl data) r).2 = None.
Proof.
  intros Hsplit Hline Hpost. split; [|done].
  cbn [getMountInfo fst]. rewrite Hsplit, foldl_app. cbn [foldl].
  destruct (foldl (scan_line mountRoot) (r, []) pre) as [r1 logs1] eqn:Hpre.
  destruct (scan_line mountRoot (r1, logs1) line) as [r2 logs2] eqn:Hhere.
  rewrite scan_lines_lookup_other by done.
  change r2 with (r2, logs2).1. rewrite <- Hhere.
  rewrite scan_line_line_mount, Hline, lookup_insert_eq.
  do 2 f_equal. change r1 with (r1, logs1).1. rewrite <- Hpre.
  apply scan_extends_GetCount, scan_extends_lines.
Qed.
End ScanProperties.

Lemma getMountInfo_extends_witness :
  let rc := {| count := 2; mounted := false; dev := "" |} in
  let r : RefCountsMap := <["vol1" := rc]> ∅ in
  let r' := (@getMountInfo ascii_paths "/mnt/vmdk"
               (inl "/dev/sdb1 /mnt/vmdk/vol1 ext4 rw 0 0") r).1.1 in
  r !! "vol1" = Some rc
  ∧ no_idle_record r
  ∧ (∃ rc', r' !! "vol1" = Some rc' ∧ count rc' = 2)
  ∧ GetCount r' "vol1" = 2
  ∧ no_idle_record r'.
Proof.
  intros rc r r'.
  assert (r !! "vol1" = Some rc) as Hrc by (vm_compute; reflexivity).
  assert (no_idle_record r) as Hidle.
  { apply map_Forall_insert_2; [|apply map_Forall_empty].
    cbn. intros [_ H0]. discriminate H0. }
  destruct (@getMountInfo_extends ascii_paths "/mnt/vmdk"
              (inl "/dev/sdb1 /mnt/vmdk/vol1 ext4 rw 0 0") r)
    as (Hkept & _ & Hcount & Hnoidle & _).
  split; [exact Hrc|]. split; [exact Hidle|].
  split.
  { destruct (Hkept "vol1" rc Hrc) as (rc' & Hrc' & Hc & _).
    exists rc'. split; [exact Hrc'|exact Hc]. }
  split; [|exact (Hnoidle Hidle)].
  exact (eq_trans (Hcount "vol1") eq_refl).
Defined.

Lemma getMountInfo_last_line_witness :
  let data :=
    "/dev/sdb1 /mnt/vmdk/vol1 ext4 rw 0 0" +:+ String newline
    "/dev/sdc1 /mnt/vmdk/vol1 ext4 rw 0 0" +:+ String newline
    "/dev/sda1 / ext4 rw 0 0" in
  let H := ascii_paths in
  strings_Split data newline
  = ["/dev/sdb1 /mnt/vmdk/vol1 ext4 rw 0 0"]
    ++ "/dev/sdc1 /mnt/vmdk/vol1 ext4 rw 0 0" :: ["/dev/sda1 / ext4 rw 0 0"]
  ∧ line_mount "/mnt/vmdk" "/dev/sdc1 /mnt/vmdk/vol1 ext4 rw 0 0"
    = Some ("vol1", "/dev/sdc1")
  ∧ (getMountInfo "/mnt/vmdk" (inl data) NewRefCountsMap).1.1 !! "vol1"
    = Some {| count := 0; mounted := true; dev := "/dev/sdc1" |}.
Proof.
  intros data H.
  assert (strings_Split data newline
          = ["/dev/sdb1 /mnt/vmdk/vol1 ext4 rw 0 0"]
            ++ "/dev/sdc1 /mnt/vmdk/vol1 ext4 rw 0 0"
               :: ["/dev/sda1 / ext4 rw 0 0"]) as Hsplit
    by (vm_compute; reflexivity).
  assert (line_mount "/mnt/vmdk" "/dev/sdc1 /mnt/vmdk/vol1 ext4 rw 0 0"
          = Some ("vol1", "/dev/sdc1")) as Hline
    by (vm_compute; reflexivity).
  assert (∀ line' d',
            line' ∈ ["/dev/sda1 / ext4 rw 0 0"] →
            line_mount "/mnt/vmdk" line' ≠ Some ("vol1", d')) as Hpost.
  { intros line' d' Hin. apply list_elem_of_singleton in Hin. subst line'.
    vm_compute. discriminate. }
  split; [exact Hsplit|]. split; [exact Hline|].
  exact (proj1 (getMountInfo_last_line "/mnt/vmdk" data NewRefCountsMap
                  _ _ _ "vol1" "/dev/sdc1" Hsplit Hline Hpost)).
Defined.

Lemma strings_Split_nonempty (s : string) (sep : ascii) :
  strings_Split s sep ≠ [].
Proof.
  destruct s as [|c rest]; cbn; [done|].
  destruct (Ascii.eqb c sep); [done|].
  by destruct (strings_Split rest sep).
Qed.

(** X8: the lines of a file. The pieces which [strings.Split] cuts a string
    into at a separator do not hold the separator, there is at least one
    piece, and joining the pieces with the separator gives the string
    back: the scan sees every character of the mounts file but the
    newlines, in lines without a newline. *)
Theorem strings_Split_Join (s : string) (sep : ascii) :
  strings_Join (strings_Split s sep) sep = s
  ∧ Forall (λ piece, has_char sep piece = false) (strings_Split s sep)
  ∧ strings_Split s sep ≠ [].
Proof.
  split; [|split; [|apply strings_Split_nonempty]].
  - induction s as [|c rest IH]; [done|]. cbn [strings_Split].
    pose proof (strings_Split_nonempty rest sep) as Hne.
    destruct (Ascii.eqb_spec c sep) as [->|Hc].
    + destruct (strings_Split rest sep) as [|piece pieces]; [done|].
      cbn [strings_Join]. cbn. by rewrite <- IH.
    + destruct (strings_Split rest sep) as [|piece pieces]; [done|].
      rewrite <- IH. by destruct pieces.
  - induction s as [|c rest IH]; [by repeat constructor|].
    cbn [strings_Split]. destruct (Ascii.eqb_spec c sep) as [->|Hc].
    + by constructor.
    + destruct (strings_Split rest sep) as [|piece pieces];
        [repeat constructor; cbn; by rewrite (proj2 (Ascii.eqb_neq c sep))|].
      apply Forall_cons in IH as [Hpiece Hpieces].
      constructor; [|done]. cbn.
      by rewrite (proj2 (Ascii.eqb_neq c sep) Hc).
Qed.

(** * Further properties of the reconciliation *)

Section SyncSafety.
Context {S : Type} `{VolumeDriver S}.
Implicit Types (s : S) (vol driverName : string) (cnt : refCount).
Implicit Types (entries : list (string * refCount)).

(** The calls which a record allows: [UnmountVolume] on a mounted volume
    without references, [GetVolume] and [MountVolume] on a volume with
    references which is not mounted. *)
Lemma sync_record_calls_allowed driverName vol cnt s c :
  c ∈ calls_of (events_of (sync_record driverName vol cnt s)) →
  call_volume c = vol
  ∧ match c with
    | CallUnmountVolume _ => mounted cnt = true ∧ count cnt = 0
    | _ => mounted cnt = false ∧ count cnt ≠ 0
    end.
Proof.
  intros Hin. split; [by eapply sync_record_calls_volume|]. revert Hin.
  destruct (mounted cnt) eqn:Hm;
    destruct (decide (count cnt = 0)) as [H0|H0].
  - rewrite sync_record_mounted_unused by done.
    unfold events_of. cbn [fst]. rewrite calls_of_app. cbn.
    destruct (UnmountVolume vol s).1; cbn;
      intros Hin; apply list_elem_of_singleton in Hin; by subst c.
  - rewrite sync_record_mounted_used by done. cbn. elem_cases.
  - rewrite sync_record_unmounted_zero by done. cbn. elem_cases.
  - intros Hin. destruct c; [done| |done].
    exfalso. revert Hin.
    destruct (GetVolume vol s).1 as [status [err|]] eqn:Hget.
    + erewrite sync_record_GetVolume_failed by done. cbn. elem_cases.
    + destruct (as_string (status !! "fstype")) as [fstype|] eqn:Hfs.
      * erewrite sync_record_remount by done.
        unfold events_of. cbn [fst].
        rewrite !calls_of_app, calls_of_disk_id_events. cbn.
        match goal with
        | |- context [match ?x with Some _ => _ | None => _ end] =>
            destruct x
        end; cbn; elem_cases.
      * erewrite sync_record_no_fstype by done.
        unfold events_of. cbn [fst].
        rewrite !calls_of_app, calls_of_disk_id_events. cbn. elem_cases.
Qed.

Lemma sync_calls_allowed driverName entries : ∀ s c,
  c ∈ calls_of (events_of (syncMountsWithRefCounters driverName entries s)) →
  ∃ cnt, (call_volume c, cnt) ∈ entries
         ∧ match c with
           | CallUnmountVolume _ => mounted cnt = true ∧ count cnt = 0
           | _ => mounted cnt = false ∧ count cnt ≠ 0
           end.
Proof.
  unfold syncMountsWithRefCounters.
  induction entries as [|[v cnt] entries IH]; intros s c.
  - cbn. intros Hin. by apply elem_of_nil in Hin.
  - rewrite range_loop_cons, events_of_and_then, calls_of_app.
    intros [Hin|Hin]%elem_of_app.
    + apply sync_record_calls_allowed in Hin as [<- Hok].
      exists cnt. split; [apply elem_of_cons; by left|done].
    + destruct (result_of (sync_record driverName v cnt s));
        [|by apply elem_of_nil in Hin].
      destruct (IH _ _ Hin) as (cnt' & Hin' & Hok).
      exists cnt'. split; [apply elem_of_cons; by right|done].
Qed.

(** X9: what the reconciliation never does. Every call of the driver is
    about a volume of the map; [UnmountVolume] is only called for a volume
    which is mounted and has no reference, [GetVolume] and [MountVolume]
    only for a volume which has references and is not mounted: a volume in
    use is never unmounted, whatever the driver answers and wherever the
    loop stops. *)
Theorem sync_calls_only_as_recorded driverName (r : RefCountsMap)
    entries s (c : call) :
  range_order r entries →
  c ∈ calls_of (events_of (syncMountsWithRefCounters driverName entries s)) →
  ∃ cnt, r !! call_volume c = Some cnt
         ∧ match c with
           | CallUnmountVolume _ => mounted cnt = true ∧ count cnt = 0
           | _ => mounted cnt = false ∧ count cnt ≠ 0
           end.
Proof.
  intros Hord Hin. destruct (sync_calls_allowed _ _ _ _ Hin)
    as (cnt & Hent & Hok).
  exists cnt. split; [|done]. by apply (range_order_lookup r entries).
Qed.

(** The state of the driver after the body of the loop, and after the
    loop, is reached by the methods of the driver. *)
Lemma sync_record_state (P : S → Prop) driverName vol cnt s :
  (∀ name s', P s' → P (UnmountVolume name s').2) →
  (∀ name s', P s' → P (GetVolume name s').2) →
  (∀ name fstype id ro sk s', P s' →
     P (MountVolume name fstype id ro sk s').2) →
  P s → P (state_of (sync_record driverName vol cnt s)).
Proof.
  intros Hun Hget Hmnt Hs.
  destruct (mounted cnt) eqn:Hm;
    destruct (decide (count cnt = 0)) as [H0|H0].
  - rewrite sync_record_mounted_unused by done. by apply Hun.
  - by rewrite sync_record_mounted_used by done.
  - by rewrite sync_record_unmounted_zero by done.
  - destruct (GetVolume vol s).1 as [status [err|]] eqn:Hg.
    + erewrite sync_record_GetVolume_failed by done. by apply Hget.
    + destruct (as_string (status !! "fstype")) as [fstype|] eqn:Hfs.
      * erewrite sync_record_remount by done. by apply Hmnt, Hget.
      * erewrite sync_record_no_fstype by done. by apply Hget.
Qed.

Lemma sync_state (P : S → Prop) driverName entries :
  (∀ name s', P s' → P (UnmountVolume name s').2) →
  (∀ name s', P s' → P (GetVolume name s').2) →
  (∀ name fstype id ro sk s', P s' →
     P (MountVolume name fstype id ro sk s').2) →
  ∀ s, P s → P (state_of (syncMountsWithRefCounters driverName entries s)).
Proof.
  intros Hun Hget Hmnt. unfold syncMountsWithRefCounters.
  induction entries as [|[v cnt] entries IH]; intros s Hs; [done|].
  rewrite range_loop_cons. unfold and_then.
  pose proof (sync_record_state P driverName v cnt s Hun Hget Hmnt Hs) as Hv.
  destruct (result_of (sync_record driverName v cnt s)); [|done].
  by apply IH.
Qed.

(** X10: a map in which every volume is mounted and has references needs
    no reconciliation: the loop calls nothing of the driver, leaves the
    state of the driver as it is, and returns without a panic. *)
Theorem sync_consistent_map driverName (r : RefCountsMap) entries s :
  range_order r entries →
  (∀ vol cnt, r !! vol = Some cnt → mounted cnt = true ∧ count cnt ≠ 0) →
  syncMountsWithRefCounters driverName entries s
  = (replicate (length entries) (ELog (Log LDebug msg_refcnt_record)),
     Ret (), s)
  ∧ calls_of (events_of (syncMountsWithRefCounters driverName entries s))
    = [].
Proof.
  intros Hord Hall.
  assert (∀ vol cnt, (vol, cnt) ∈ entries →
            mounted cnt = true ∧ count cnt ≠ 0) as Hent.
  { intros vol cnt Hin. apply (Hall vol cnt).
    by apply (range_order_lookup r entries). }
  clear Hord Hall.
  assert (syncMountsWithRefCounters driverName entries s
          = (replicate (length entries) (ELog (Log LDebug msg_refcnt_record)),
             Ret (), s)) as Hrun.
  { unfold syncMountsWithRefCounters.
    induction entries as [|[v cnt] entries IH]; [done|].
    destruct (Hent v cnt) as [Hm H0]; [apply elem_of_cons; by left|].
    rewrite range_loop_cons, sync_record_mounted_used by done.
    unfold and_then. cbn. rewrite IH; [done|].
    intros vol' cnt' Hin. apply (Hent vol' cnt').
    apply elem_of_cons. by right. }
  split; [done|]. rewrite Hrun. unfold events_of. cbn [fst].
  generalize (length entries). intros n. by induction n.
Qed.
End SyncSafety.

Lemma sync_calls_only_as_recorded_witness :
  let rc1 := {| count := 0; mounted := true; dev := "/dev/sdb" |} in
  let rc2 := {| count := 3; mounted := false; dev := "" |} in
  let r : RefCountsMap := <["vol1" := rc1]> (<["vol2" := rc2]> ∅) in
  let entries := [("vol1", rc1); ("vol2", rc2)] in
  range_order r entries
  ∧ CallUnmountVolume "vol1"
    ∈ calls_of (events_of
        (@syncMountsWithRefCounters unit good_driver "vmdk" entries ()))
  ∧ ∃ cnt, r !! "vol1" = Some cnt ∧ mounted cnt = true ∧ count cnt = 0.
Proof.
  intros rc1 rc2 r entries.
  assert (range_order r entries) as Hord by solve_range_order.
  assert (CallUnmountVolume "vol1"
          ∈ calls_of (events_of
              (@syncMountsWithRefCounters unit good_driver "vmdk"
                 entries ()))) as Hin
    by (vm_compute; apply elem_of_cons; by left).
  split; [exact Hord|]. split; [exact Hin|].
  exact (@sync_calls_only_as_recorded unit good_driver "vmdk" r entries ()
           (CallUnmountVolume "vol1") Hord Hin).
Defined.

Lemma sync_consistent_map_witness :
  let rc3 := {| count := 5; mounted := true; dev := "/dev/sdc" |} in
  let rc4 := {| count := 1; mounted := true; dev := "/dev/sdd" |} in
  let r : RefCountsMap := <["vol3" := rc3]> (<["vol4" := rc4]> ∅) in
  let entries := [("vol3", rc3); ("vol4", rc4)] in
  range_order r entries
  ∧ (∀ vol cnt, r !! vol = Some cnt → mounted cnt = true ∧ count cnt ≠ 0)
  ∧ calls_of (events_of
      (@syncMountsWithRefCounters unit failing_driver "vmdk" entries ()))
    = [].
Proof.
  intros rc3 rc4 r entries.
  assert (range_order r entries) as Hord by solve_range_order.
  assert (∀ vol cnt,
            r !! vol = Some cnt → mounted cnt = true ∧ count cnt ≠ 0)
    as Hall.
  { intros vol cnt Hin.
    apply (range_order_lookup r entries vol cnt Hord) in Hin.
    apply elem_of_cons in Hin as [Hin|Hin];
      [|apply list_elem_of_singleton in Hin];
      inversion Hin; subst cnt; cbn; split; [done|discriminate|
                                             done|discriminate]. }
  split; [exact Hord|]. split; [exact Hall|].
  exact (proj2 (@sync_consistent_map unit failing_driver "vmdk" r entries ()
                  Hord Hall)).
Defined.

(** * Properties of the discovery *)

Lemma lookup_foldl_delete (names : list string) : ∀ (m : RefCountsMap) i,
  foldl (λ m name, delete name m) m names !! i
  = if decide (i ∈ names) then None else m !! i.
Proof.
  induction names as [|name names IH]; intros m i; cbn [foldl].
  - rewrite decide_False; [done|]. apply not_elem_of_nil.
  - rewrite IH. destruct (decide (i ∈ names)) as [Hin|Hnotin].
    + rewrite decide_True; [done|]. by right.
    + destruct (decide (i = name)) as [->|Hne].
      * rewrite decide_True by (by left). apply lookup_delete_eq.
      * rewrite decide_False.
        -- by apply lookup_delete_ne.
        -- intros [?|?]%elem_of_cons; done.
Qed.

Lemma calls_of_logs (logs : list logrec) : calls_of (ELog <$> logs) = [].
Proof. by induction logs. Qed.

Lemma calls_of_replicate_log n (l : logrec) :
  calls_of (replicate n (ELog l)) = [].
Proof. by induction n. Qed.

Lemma driver_volumes_app driverName (m1 m2 : list MountPoint) :
  driver_volumes driverName (m1 ++ m2)
  = driver_volumes driverName m1 ++ driver_volumes driverName m2.
Proof. unfold driver_volumes. by rewrite filter_app, fmap_app. Qed.

Lemma run_ops_app (ops1 ops2 : list op) (r : RefCountsMap) :
  run_ops (ops1 ++ ops2) r = run_ops ops2 (run_ops ops1 r).
Proof. apply foldl_app. Qed.

(** The count after increments of the volumes [names], one after the
    other. *)
Lemma GetCount_Incr_names vol (names : list string) : ∀ (r : RefCountsMap),
  is_uint (GetCount r vol) →
  GetCount (run_ops (OpIncr <$> names) r) vol
  = uint_wrap (GetCount r vol
               + Z.of_nat (length (filter (λ name, name = vol) names))).
Proof.
  induction names as [|name names IH]; intros r Hu.
  - cbn. rewrite Z.add_0_r. symmetry. by apply uint_wrap_small.
  - cbn [fmap list_fmap]. unfold run_ops in *. cbn [foldl run_op].
    rewrite filter_cons. destruct (decide (name = vol)) as [->|Hne].
    + rewrite IH by (rewrite GetCount_Incr_same; apply uint_wrap_is_uint).
      rewrite GetCount_Incr_same. unfold uint_wrap.
      rewrite Zplus_mod_idemp_l. f_equal. cbn [length]. lia.
    + rewrite IH by (by rewrite GetCount_Incr_other).
      by rewrite GetCount_Incr_other.
Qed.

Lemma lookup_Incr_names vol (names : list string) : ∀ (r : RefCountsMap),
  vol ∉ names → run_ops (OpIncr <$> names) r !! vol = r !! vol.
Proof.
  induction names as [|name names IH]; intros r Hnotin; [done|].
  cbn [fmap list_fmap]. unfold run_ops in *. cbn [foldl run_op].
  rewrite IH by (intros Hin; apply Hnotin; by right).
  apply Incr_lookup_other. intros ->. apply Hnotin. by left.
Qed.

(** After increments only, fewer than [2^64] of them, the map made from an
    empty map has no record without references. *)
Lemma no_idle_record_Incr_names (names : list string) :
  Z.of_nat (length names) < uint_modulus →
  no_idle_record (run_ops (OpIncr <$> names) ∅).
Proof.
  intros Hlt vol rc Hrc [_ H0].
  destruct (decide (vol ∈ names)) as [Hin|Hnotin].
  - assert (GetCount (run_ops (OpIncr <$> names) ∅) vol = 0) as Hget
      by (unfold GetCount; by rewrite Hrc).
    rewrite GetCount_Incr_names in Hget
      by (rewrite GetCount_absent by apply lookup_empty;
          split; [lia|reflexivity]).
    rewrite GetCount_absent in Hget by apply lookup_empty.
    pose proof (length_filter (λ name, name = vol) names) as Hlen.
    assert (0 < length (filter (λ name, name = vol) names))%nat as Hpos.
    { destruct (filter (λ name, name = vol) names) as [|x l] eqn:Hf;
        [|cbn; lia].
      exfalso. eapply (filter_nil_not_elem_of _ names vol); done. }
    rewrite uint_wrap_small in Hget by (unfold is_uint; lia). lia.
  - rewrite lookup_Incr_names in Hrc by done.
    by rewrite lookup_empty in Hrc.
Qed.

Section DiscoveryProperties.
Context {C S : Type} `{DockerClient C} `{VolumeDriver S} `{PathLib}.
Variable order : RefCountsMap → list (string * refCount).
Implicit Types (w : World C S) (driverName mountRoot : string).

Lemma purge_run w :
  range_order (refMap w) (order (refMap w)) →
  purge order w = ([], Ret (), set_refMap ∅ w).
Proof.
  intros Hord. unfold purge. do 2 f_equal.
  apply map_empty. intros i. rewrite lookup_foldl_delete.
  destruct (decide (i ∈ (order (refMap w)).*1)) as [Hin|Hnotin]; [done|].
  destruct (refMap w !! i) as [rc|] eqn:Hrc; [|done].
  exfalso. apply Hnotin. apply list_elem_of_fmap. exists (i, rc).
  split; [done|]. by apply (range_order_lookup (refMap w)).
Qed.

Lemma count_mounts_run driverName (mounts : list MountPoint) : ∀ w,
  count_mounts driverName mounts w
  = (replicate (length (driver_volumes driverName mounts))
       (ELog (Log LDebug msg_mount_counted)),
     Ret (),
     set_refMap
       (run_ops (OpIncr <$> driver_volumes driverName mounts) (refMap w)) w).
Proof.
  unfold count_mounts.
  induction mounts as [|mount mounts IH]; intros [r c s]; [done|].
  cbn [for_each]. rewrite bind_run. unfold and_then, driver_volumes.
  rewrite filter_cons.
  destruct (String.eqb_spec (Driver mount) driverName) as [Heq|Hne].
  - rewrite decide_True by done.
    unfold mbind, M_mbind, M_bind, do_Incr, logf. cbn.
    rewrite IH. reflexivity.
  - rewrite decide_False by done. cbn. rewrite IH. reflexivity.
Qed.

(** The body of the loop over the containers. *)
Lemma count_container_run driverName (ct : Container) w :
  let res := ContainerInspect (ID ct) (docker w) in
  let names :=
    match res.1.2 with
    | Some _ => []
    | None => driver_volumes driverName res.1.1
    end in
  ∃ evs,
    (res' ← do_ContainerInspect (ID ct) ;
     match res'.2 with
     | Some _ => logf LError msg_inspect_failed
     | None =>
         logf LDebug msg_mounts_for ;;
         count_mounts driverName res'.1
     end) w
    = (evs, Ret (),
       MkWorld (run_ops (OpIncr <$> names) (refMap w)) res.2 (driver w))
    ∧ calls_of evs = [].
Proof.
  destruct w as [r c s]. cbn zeta. cbn [docker refMap driver].
  rewrite bind_run. unfold and_then, do_ContainerInspect.
  cbn [result_of events_of state_of fst snd docker set_docker refMap driver].
  destruct (ContainerInspect (ID ct) c) as [[mounts [err|]] c1];
    cbn [fst snd].
  - eexists. split; [reflexivity|done].
  - rewrite bind_run. unfold and_then. cbn [logf result_of fst snd].
    rewrite count_mounts_run. eexists. split; [reflexivity|].
    cbn. apply calls_of_replicate_log.
Qed.

Lemma count_containers_run driverName (containers : list Container) : ∀ w,
  ∃ evs,
    count_containers driverName containers w
    = (evs, Ret (),
       MkWorld
         (run_ops
            (OpIncr <$> driver_volumes driverName
                          (inspected containers (docker w)).1)
            (refMap w))
         (inspected containers (docker w)).2 (driver w))
    ∧ calls_of evs = [].
Proof.
  unfold count_containers.
  induction containers as [|ct containers IH]; intros w.
  - exists []. by destruct w.
  - cbn [for_each inspected]. rewrite bind_run. unfold and_then.
    destruct (count_container_run driverName ct w) as (evs1 & -> & Hcalls1).
    cbn [result_of events_of state_of fst snd].
    destruct (IH (MkWorld
                    (run_ops
                       (OpIncr <$>
                          match (ContainerInspect (ID ct) (docker w)).1.2 with
                          | Some _ => []
                          | None =>
                              driver_volumes driverName
                                (ContainerInspect (ID ct) (docker w)).1.1
                          end) (refMap w))
                    (ContainerInspect (ID ct) (docker w)).2 (driver w)))
      as (evs2 & -> & Hcalls2).
    exists (evs1 ++ evs2). cbn [result_of events_of state_of fst snd
                                  refMap docker driver].
    split; [|by rewrite calls_of_app, Hcalls1, Hcalls2].
    do 2 f_equal.
    destruct (ContainerInspect (ID ct) (docker w)).1.2.
    + reflexivity.
    + by rewrite driver_volumes_app, fmap_app, run_ops_app.
Qed.
(** The reconciliation on the world only changes the state of the
    driver. *)
Lemma do_sync_world driverName w :
  refMap (state_of (do_sync order driverName w)) = refMap w
  ∧ docker (state_of (do_sync order driverName w)) = docker w.
Proof.
  unfold do_sync.
  apply (@sync_state (World C S) world_driver
           (λ w', refMap w' = refMap w ∧ docker w' = docker w));
    [by intros ? []..|done].
Qed.

(** [discoverAndSync] when the containers cannot be listed. *)
Lemma discoverAndSync_not_listed driverName mountRoot file w err :
  range_order (refMap w) (order (refMap w)) →
  (ContainerList ["running"; "paused"; "restarting"] (docker w)).1.2
  = Some err →
  discoverAndSync order driverName mountRoot file w
  = ([], Ret (Some err),
     MkWorld ∅
       (ContainerList ["running"; "paused"; "restarting"] (docker w)).2
       (driver w)).
Proof.
  intros Hord Herr. unfold discoverAndSync.
  rewrite bind_run, purge_run by done. unfold and_then.
  cbn [result_of events_of state_of fst snd].
  rewrite bind_run. unfold and_then, do_ContainerList.
  cbn [result_of events_of state_of fst snd docker set_refMap set_docker
       refMap driver].
  by rewrite Herr.
Qed.

(** [discoverAndSync] when the containers are listed: the map is purged,
    the volumes of the driver are counted, the mounts are scanned and the
    map is reconciled with them. *)
Lemma discoverAndSync_listed driverName mountRoot file w :
  range_order (refMap w) (order (refMap w)) →
  let lst := ContainerList ["running"; "paused"; "restarting"] (docker w) in
  lst.1.2 = None →
  let seen := inspected lst.1.1 lst.2 in
  let counted :=
    run_ops (OpIncr <$> driver_volumes driverName seen.1) ∅ in
  let scanned := (getMountInfo mountRoot file counted).1.1 in
  let run := do_sync order driverName (MkWorld scanned seen.2 (driver w)) in
  ∃ evs,
    discoverAndSync order driverName mountRoot file w
    = (evs ++ events_of run,
       match result_of run with
       | Ret _ => Ret None
       | Panicked c => Panicked c
       end,
       state_of run)
    ∧ calls_of evs = [].
Proof.
  intros Hord lst Hlst seen counted scanned run. unfold discoverAndSync.
  rewrite bind_run, purge_run by done. unfold and_then.
  cbn [result_of events_of state_of fst snd].
  rewrite bind_run. unfold and_then, do_ContainerList.
  cbn [result_of events_of state_of fst snd docker set_refMap set_docker
       refMap driver].
  fold lst. rewrite Hlst. cbv beta iota.
  rewrite bind_run. unfold and_then.
  cbn [logf result_of events_of state_of fst snd].
  rewrite bind_run. unfold and_then.
  destruct (count_containers_run driverName lst.1.1
              (set_docker lst.2 (set_refMap ∅ w))) as (evs1 & -> & Hcalls1).
  unfold set_docker, set_refMap.
  cbn [result_of events_of state_of fst snd docker refMap driver].
  fold seen counted.
  rewrite bind_run. unfold and_then, do_getMountInfo, set_refMap.
  cbn [result_of events_of state_of fst snd docker refMap driver].
  fold scanned.
  rewrite bind_run. unfold and_then. fold run.
  exists ([ELog (Log LDebug msg_found_containers)] ++ evs1
          ++ (ELog <$> (getMountInfo mountRoot file counted).1.2)).
  split.
  - destruct (result_of run) as [[]|c]; cbn;
      by rewrite ?app_nil_r, <- ?app_assoc.
  - by rewrite !calls_of_app, Hcalls1, calls_of_logs.
Qed.

Lemma for_each_logf {A} (l : level) (m : string) (xs : list A) w :
  for_each (λ _, logf l m) xs w
  = (replicate (length xs) (ELog (Log l m)), Ret (), w).
Proof.
  induction xs as [|x xs IH]; [done|].
  cbn [for_each]. rewrite bind_run. unfold and_then. cbn. by rewrite IH.
Qed.

(** X11: the purge. Deleting every name which the [range] over the map
    yields, in whatever order, leaves an empty map: [GetCount] is 0 for
    every volume after it; the purge logs nothing and touches neither
    Docker nor the driver. *)
Theorem purge_empties w :
  range_order (refMap w) (order (refMap w)) →
  let after := state_of (purge order w) in
  refMap after = ∅
  ∧ (∀ vol, GetCount (refMap after) vol = 0)
  ∧ docker after = docker w
  ∧ driver after = driver w
  ∧ events_of (purge order w) = []
  ∧ result_of (purge order w) = Ret ().
Proof.
  intros Hord after. subst after. rewrite purge_run by done.
  destruct w as [r c s]. cbn. split; [done|]. split; [|done].
  intros vol. apply GetCount_absent, lookup_empty.
Qed.

(** X12: the only error which [discoverAndSync] returns is the one of
    [ContainerList]. When the containers cannot be listed, the error is
    returned with the map purged, nothing logged, no mount scanned and the
    driver not called; when they are listed no error is returned, also
    when a container cannot be inspected or the mounts file cannot be
    read. *)
Theorem discoverAndSync_error driverName mountRoot file w :
  (∀ r, range_order r (order r)) →
  let lst := ContainerList ["running"; "paused"; "restarting"] (docker w) in
  let run := discoverAndSync order driverName mountRoot file w in
  (∀ err, result_of run = Ret (Some err) ↔ lst.1.2 = Some err)
  ∧ (∀ err, lst.1.2 = Some err →
       run = ([], Ret (Some err), MkWorld ∅ lst.2 (driver w))).
Proof.
  intros Hord lst run.
  assert (∀ err, lst.1.2 = Some err →
            run = ([], Ret (Some err), MkWorld ∅ lst.2 (driver w))) as Hfail
    by (intros err Herr; by apply discoverAndSync_not_listed).
  split; [|done]. intros err. split.
  - intros Hres. destruct lst.1.2 as [err'|] eqn:Hlst.
    + rewrite (Hfail err' eq_refl) in Hres. cbn in Hres. congruence.
    + destruct (discoverAndSync_listed driverName mountRoot file w
                  (Hord _) Hlst) as (evs & Hrun & _).
      subst run. rewrite Hrun in Hres. unfold result_of in Hres at 1.
      cbn [fst snd] in Hres.
      by destruct (result_of (do_sync _ _ _)).
  - intros Herr. by rewrite (Hfail err Herr).
Qed.

(** The counts of the map after [discoverAndSync]. *)
Lemma discoverAndSync_GetCount driverName mountRoot file w vol :
  range_order (refMap w) (order (refMap w)) →
  (ContainerList ["running"; "paused"; "restarting"] (docker w)).1.2 = None →
  GetCount
    (refMap (state_of (discoverAndSync order driverName mountRoot file w)))
    vol
  = uint_wrap
      (Z.of_nat
         (length
            (filter (λ mount, Driver mount = driverName ∧ Name mount = vol)
               (inspected
                  (ContainerList ["running"; "paused"; "restarting"]
                     (docker w)).1.1
                  (ContainerList ["running"; "paused"; "restarting"]
                     (docker w)).2).1))).
Proof.
  intros Hord Hlst.
  destruct (discoverAndSync_listed driverName mountRoot file w Hord Hlst)
    as (evs & Hrun & _).
  rewrite Hrun. unfold state_of at 1. cbn [fst snd].
  rewrite (proj1 (do_sync_world driverName _)). cbn [refMap].
  rewrite (scan_extends_GetCount _ _ vol
             (scan_extends_getMountInfo mountRoot file _)).
  rewrite GetCount_Incr_names
    by (rewrite GetCount_absent by apply lookup_empty;
        split; [lia|reflexivity]).
  rewrite GetCount_absent by apply lookup_empty.
  f_equal. rewrite Z.add_0_l. f_equal. unfold driver_volumes.
  generalize (inspected
                (ContainerList ["running"; "paused"; "restarting"]
                   (docker w)).1.1
                (ContainerList ["running"; "paused"; "restarting"]
                   (docker w)).2).1.
  intros mounts. induction mounts as [|mount mounts IH]; [done|].
  rewrite !filter_cons.
  destruct (decide (Driver mount = driverName)) as [Hd|Hd].
  - cbn [fmap list_fmap]. rewrite filter_cons.
    destruct (decide (Name mount = vol)) as [Hn|Hn].
    + rewrite decide_True by done. cbn [length]. by rewrite IH.
    + by rewrite decide_False by (intros [_ ?]; done).
  - by rewrite decide_False by (intros [? _]; done).
Qed.

(** X13: the counts after a discovery. When the containers are listed,
    after [discoverAndSync] the count of every volume is the number of
    mounts of that name and of the driver [driverName] among the containers
    which could be inspected (modulo [2^64]), whatever the map held before,
    whatever the mounts file holds and the driver answers, and also when
    the reconciliation panics. *)
Theorem discoverAndSync_counts driverName mountRoot file w :
  (∀ r, range_order r (order r)) →
  let lst := ContainerList ["running"; "paused"; "restarting"] (docker w) in
  lst.1.2 = None →
  let seen := inspected lst.1.1 lst.2 in
  let after :=
    state_of (discoverAndSync order driverName mountRoot file w) in
  ∀ vol,
    GetCount (refMap after) vol
    = uint_wrap
        (Z.of_nat
           (length
              (filter (λ mount, Driver mount = driverName ∧ Name mount = vol)
                      seen.1))).
Proof.
  intros Hord lst Hlst seen after vol.
  by apply discoverAndSync_GetCount.
Qed.

(** X14: the record which should not exist is not met in a discovery.
    When fewer than [2^64] mounts of the driver are counted, the map which
    [discoverAndSync] reconciles has no record which is both unmounted and
    without references, and the reconciliation does not panic on such a
    record: [discoverAndSync] returns without error, or panics on the type
    assertion of the [fstype]. *)
Theorem discoverAndSync_record_exists driverName mountRoot file w :
  (∀ r, range_order r (order r)) →
  let lst := ContainerList ["running"; "paused"; "restarting"] (docker w) in
  lst.1.2 = None →
  let seen := inspected lst.1.1 lst.2 in
  Z.of_nat (length (driver_volumes driverName seen.1)) < uint_modulus →
  let run := discoverAndSync order driverName mountRoot file w in
  no_idle_record (refMap (state_of run))
  ∧ (result_of run = Ret None
     ∨ result_of run = Panicked InterfaceConversion).
Proof.
  intros Hord lst Hlst seen Hlt run.
  destruct (discoverAndSync_listed driverName mountRoot file w
              (Hord _) Hlst) as (evs & Hrun & _).
  subst run seen lst. rewrite Hrun.
  set (seen := inspected _ _) in *.
  set (counted := run_ops (OpIncr <$> driver_volumes driverName seen.1) ∅)
    in *.
  set (scanned := (getMountInfo mountRoot file counted).1.1) in *.
  assert (no_idle_record scanned) as Hidle.
  { apply (scan_extends_no_idle_record counted).
    - apply scan_extends_getMountInfo.
    - by apply no_idle_record_Incr_names. }
  split.
  - unfold state_of at 1. cbn [snd].
    destruct (do_sync_world driverName (MkWorld scanned seen.2 (driver w)))
      as [-> _]. done.
  - destruct (@sync_not_impossible (World C S) world_driver driverName
                (order scanned) (MkWorld scanned seen.2 (driver w)))
      as [_ Hres].
    { intros vol cnt Hin. apply (Hidle vol cnt).
      by apply (range_order_lookup scanned (order scanned)). }
    unfold do_sync. cbn [refMap]. unfold result_of in *. cbn [fst snd].
    destruct ((syncMountsWithRefCounters _ _ _).1.2) as [[]|[]];
      [by left|done|by right].
Qed.

(** X15: [Init]. Without [VDVS_DISCOVER_VOLUMES] nothing is done; when the
    client cannot be made [Init] panics; when Docker does not answer, the
    discovery is skipped: in these cases the map, which is not purged, and
    the driver are left as they are. When Docker answers and lists its
    containers, [Init] leaves the counts of the discovery in the map. *)
Theorem Init_discovers getenv newClient mountDir name file w :
  (∀ r, range_order r (order r)) →
  let init := Init order getenv newClient mountDir name file w in
  let info := ClientInfo (docker w) in
  let w1 := set_docker info.2 w in
  let lst := ContainerList ["running"; "paused"; "restarting"] (docker w1) in
  (getenv = "" →
   init = InitRun ([ELog (Log LDebug msg_skip_discovery)], Ret (), w))
  ∧ (getenv ≠ "" → is_Some newClient →
     init = InitClientPanic [ELog (Log LPanic msg_client_failed)] w)
  ∧ (getenv ≠ "" → newClient = None → is_Some info.1 →
     init = InitRun ([ELog (Log LInfo msg_getting_data);
                      ELog (Log LInfo msg_cant_connect)], Ret (), w1))
  ∧ (getenv ≠ "" → newClient = None → info.1 = None → lst.1.2 = None →
     ∃ x, init = InitRun x
          ∧ ∀ vol,
              GetCount (refMap (state_of x)) vol
              = uint_wrap
                  (Z.of_nat
                     (length
                        (filter
                           (λ mount, Driver mount = name ∧ Name mount = vol)
                           (inspected lst.1.1 lst.2).1)))).
Proof.
  intros Hord init info w1 lst. subst init. unfold Init.
  split; [by intros ->|].
  split; [intros Henv%String.eqb_neq [e ->]; by rewrite Henv|].
  split.
  - intros Henv%String.eqb_neq -> [e He]. rewrite Henv. f_equal.
    rewrite bind_run. unfold and_then.
    cbn [logf result_of events_of state_of fst snd].
    rewrite bind_run. unfold and_then, do_ClientInfo.
    cbn [result_of events_of state_of fst snd]. fold info. by rewrite He.
  - intros Henv%String.eqb_neq -> He Hlst. rewrite Henv. eexists.
    split; [reflexivity|]. intros vol.
    rewrite bind_run. unfold and_then.
    cbn [logf result_of events_of state_of fst snd].
    rewrite bind_run. unfold and_then, do_ClientInfo.
    cbn [result_of events_of state_of fst snd]. fold info. rewrite He.
    cbv beta iota. fold w1.
    rewrite bind_run. unfold and_then.
    cbn [logf result_of events_of state_of fst snd].
    rewrite bind_run. unfold and_then.
    pose proof (discoverAndSync_GetCount name mountDir file w1 vol
                  (Hord _) Hlst) as Hcounts.
    destruct (result_of (discoverAndSync order name mountDir file w1))
      as [[e|]|c].
    + cbn. apply Hcounts.
    + rewrite bind_run. unfold and_then.
      cbn [logf result_of events_of state_of fst snd].
      unfold log_volumes. rewrite for_each_logf.
      cbn. apply Hcounts.
    + cbn. apply Hcounts.
Qed.
End DiscoveryProperties.

(** ** The discovery on examples *)

Lemma map_to_list_range_order (r : RefCountsMap) :
  range_order r (map_to_list r).
Proof. unfold range_order. reflexivity. Qed.

Lemma purge_empties_witness :
  range_order (refMap stale_world) (map_to_list (refMap stale_world))
  ∧ GetCount (refMap stale_world) "old" = 7
  ∧ GetCount (refMap (state_of (purge map_to_list stale_world))) "old" = 0.
Proof.
  split; [apply map_to_list_range_order|]. split; [reflexivity|].
  destruct (purge_empties map_to_list stale_world
              (map_to_list_range_order _)) as (_ & Hzero & _).
  exact (Hzero "old").
Defined.

Lemma discoverAndSync_error_witness :
  let run :=
    @discoverAndSync unit unit broken_docker good_driver ascii_paths
      map_to_list "vmdk" "/mnt/vmdk" stale_mounts stale_world in
  (∀ r, range_order r (map_to_list r))
  ∧ (@ContainerList unit broken_docker
       ["running"; "paused"; "restarting"] ()).1.2 = Some "cannot list"
  ∧ run = ([], Ret (Some "cannot list"), MkWorld ∅ () ()).
Proof.
  intros run.
  destruct (@discoverAndSync_error unit unit broken_docker good_driver
              ascii_paths map_to_list "vmdk" "/mnt/vmdk" stale_mounts
              stale_world map_to_list_range_order) as [_ Hfail].
  split; [exact map_to_list_range_order|]. split; [reflexivity|].
  exact (Hfail "cannot list" eq_refl).
Defined.

Lemma discoverAndSync_counts_witness :
  let after :=
    state_of
      (@discoverAndSync unit unit sample_docker good_driver ascii_paths
         map_to_list "vmdk" "/mnt/vmdk" stale_mounts stale_world) in
  (∀ r, range_order r (map_to_list r))
  ∧ (@ContainerList unit sample_docker
       ["running"; "paused"; "restarting"] ()).1.2 = None
  ∧ GetCount (refMap after) "shared" = 2
  ∧ GetCount (refMap after) "old" = 0
  ∧ GetCount (refMap after) "cache" = 0.
Proof.
  intros after.
  pose proof (@discoverAndSync_counts unit unit sample_docker good_driver
                ascii_paths map_to_list "vmdk" "/mnt/vmdk" stale_mounts
                stale_world map_to_list_range_order eq_refl) as Hcounts.
  cbv zeta in Hcounts. fold after in Hcounts.
  split; [exact map_to_list_range_order|]. split; [reflexivity|].
  rewrite !Hcounts.
  split; [vm_compute; reflexivity|].
  split; vm_compute; reflexivity.
Defined.

Lemma discoverAndSync_record_exists_witness :
  let run :=
    @discoverAndSync unit unit sample_docker no_fstype_driver ascii_paths
      map_to_list "vmdk" "/mnt/vmdk" stale_mounts stale_world in
  (∀ r, range_order r (map_to_list r))
  ∧ (@ContainerList unit sample_docker
       ["running"; "paused"; "restarting"] ()).1.2 = None
  ∧ no_idle_record (refMap (state_of run))
  ∧ (result_of run = Ret None
     ∨ result_of run = Panicked InterfaceConversion).
Proof.
  intros run.
  split; [exact map_to_list_range_order|]. split; [reflexivity|].
  apply (@discoverAndSync_record_exists unit unit sample_docker
           no_fstype_driver ascii_paths map_to_list "vmdk" "/mnt/vmdk"
           stale_mounts stale_world map_to_list_range_order eq_refl).
  vm_compute. reflexivity.
Defined.

Lemma Init_discovers_witness :
  (∀ r, range_order r (map_to_list r))
  ∧ @Init unit unit sample_docker good_driver ascii_paths map_to_list
      "" None "/mnt/vmdk" "vmdk" stale_mounts stale_world
    = InitRun ([ELog (Log LDebug msg_skip_discovery)], Ret (), stale_world)
  ∧ @Init unit unit silent_docker good_driver ascii_paths map_to_list
      "1" None "/mnt/vmdk" "vmdk" stale_mounts stale_world
    = InitRun ([ELog (Log LInfo msg_getting_data);
                ELog (Log LInfo msg_cant_connect)], Ret (), stale_world)
  ∧ @Init unit unit sample_docker good_driver ascii_paths map_to_list
      "1" (Some "no socket") "/mnt/vmdk" "vmdk" stale_mounts stale_world
    = InitClientPanic [ELog (Log LPanic msg_client_failed)] stale_world
  ∧ ∃ x,
      @Init unit unit sample_docker good_driver ascii_paths map_to_list
        "1" None "/mnt/vmdk" "vmdk" stale_mounts stale_world = InitRun x
      ∧ GetCount (refMap (state_of x)) "shared" = 2.
Proof.
  assert ("1" ≠ "") as Henv by discriminate.
  split; [exact map_to_list_range_order|].
  split.
  { destruct (@Init_discovers unit unit sample_docker good_driver ascii_paths
                map_to_list "" None "/mnt/vmdk" "vmdk" stale_mounts
                stale_world map_to_list_range_order) as (Hskip & _).
    exact (Hskip eq_refl). }
  split.
  { destruct (@Init_discovers unit unit silent_docker good_driver ascii_paths
                map_to_list "1" None "/mnt/vmdk" "vmdk" stale_mounts
                stale_world map_to_list_range_order) as (_ & _ & Hsilent & _).
    exact (Hsilent Henv eq_refl (mk_is_Some _ _ eq_refl)). }
  split.
  { destruct (@Init_discovers unit unit sample_docker good_driver ascii_paths
                map_to_list "1" (Some "no socket") "/mnt/vmdk" "vmdk"
                stale_mounts stale_world map_to_list_range_order)
      as (_ & Hpanic & _).
    exact (Hpanic Henv (mk_is_Some _ _ eq_refl)). }
  destruct (@Init_discovers unit unit sample_docker good_driver ascii_paths
              map_to_list "1" None "/mnt/vmdk" "vmdk" stale_mounts
              stale_world map_to_list_range_order) as (_ & _ & _ & Hrun).
  destruct (Hrun Henv eq_refl eq_refl eq_refl) as (x & Hx & Hcounts).
  exists x. split; [exact Hx|]. rewrite Hcounts. vm_compute. reflexivity.
Defined.
